(** * Phi-Benchmark, [bandwidth.c]: the multi-threaded streaming copy

    A shallow embedding of the pthread variant of STREAM's copy kernel
    (the [#else] branch of [#ifdef MP] in [main]) and of the statistics
    that follow it.

    - machine integers are [Z] with the conversions written out
      ([uint32_t size], [int threads]);
    - [double] is Rocq's primitive binary64 [float], so sums, quotients
      and comparisons round and treat NaN as the C code does;
    - the arrays [a] and [b] are maps from element index to the 32-bit
      pattern of a [float]; the kernel only moves bits;
    - the worker threads of one trial are a transition system: a step is
      a barrier release or one iteration of one worker's loop, so every
      interleaving at the granularity of one 512-bit copy is covered;
    - [main] is a function of the environment (argument vector, results
      of the system calls, the intervals the workers measure) in a
      writer/error monad: it yields the trace of system-level events and
      either a return, a fault (undefined behaviour) or a blocked run;
    - the serial kernel of the build with [MP] and [checktick] follow,
      on the same definitions. *)

From Stdlib Require Import ZArith Floats Lia Bool.
From stdpp Require Import base list relations.

Local Open Scope Z_scope.

(** ** Results and the trace monad *)

Inductive array_id := ArrA | ArrB | ArrC.

(** System-level events, in program order. [EvPrintf] is the only output
    statement of the program that is not commented out. *)
Inductive event :=
| EvMemalign (arr : array_id) (ok : bool)
| EvSetAffinity (k : Z) (tt : Z) (cpu : Z) (ok : bool)
| EvCreate (k : Z) (tt : Z) (ok : bool)
| EvJoin (k : Z) (tt : Z)
| EvPrintf (threads : Z) (bandwidth : float).

Inductive result (A : Type) : Type :=
| Ok (x : A)
| Fault      (* undefined behaviour: invalid access or invalid handle *)
| Blocked.   (* the calling thread waits forever *)
Arguments Ok {A} x.
Arguments Fault {A}.
Arguments Blocked {A}.

Definition M (A : Type) : Type := (list event * result A)%type.

Definition ret {A} (x : A) : M A := ([], Ok x).

Definition bind {A B} (m : M A) (f : A -> M B) : M B :=
  match m with
  | (tr, Ok x) => let '(tr', r) := f x in (tr ++ tr', r)
  | (tr, Fault) => (tr, Fault)
  | (tr, Blocked) => (tr, Blocked)
  end.

Definition emit (e : event) : M unit := ([e], Ok tt).
Definition fault {A} : M A := ([], Fault).
Definition blocked {A} : M A := ([], Blocked).

Notation "x <- m ;; k" := (bind m (fun x => k))
  (at level 100, m at next level, right associativity).
Notation "m ;;; k" := (bind m (fun _ => k))
  (at level 100, right associativity).

(** [for (tt = t0; cond tt; ++tt) body], with a bound on the number of
    iterations; running out of it is a fault. *)
Fixpoint for_loop {S : Type} (fuel : nat) (cond : Z -> bool)
    (body : Z -> S -> M S) (tt : Z) (s : S) : M S :=
  match fuel with
  | O => if cond tt then fault else ret s
  | Datatypes.S fuel' =>
      if cond tt then s' <- body tt s ;; for_loop fuel' cond body (tt + 1) s'
      else ret s
  end.

(** ** Machine integers *)

Definition to_uint32 (z : Z) : Z := z mod 2 ^ 32.
Definition to_uint64 (z : Z) : Z := z mod 2 ^ 64.
Definition to_int32 (z : Z) : Z := (z + 2 ^ 31) mod 2 ^ 32 - 2 ^ 31.

Definition sizeof_STREAM_TYPE : Z := 4.

(** [pthread_t tid[288]; pthread_attr_t attr[288]; argc_t info[288];] *)
Definition MAX_THREADS : Z := 288.

(** ** Work assignments *)

(** [argc_t]. The pointers [a], [b], [c] are kept as the index of their
    first element in the global array they point into; [barrier] is the
    one barrier of the trial. [time] is unset until the worker stores it. *)
Record argc_t := {
  arg_a : Z;
  arg_b : Z;
  arg_c : Z;
  arg_size : Z;
  arg_time : option float
}.

Definition get_cpu_id (tid : Z) : Z := tid.

(** ** Compile-time configuration

    [STREAM_ARRAY_SIZE] and [NTIMES] may be given on the compile line
    ([-DSTREAM_ARRAY_SIZE=...], [-DNTIMES=...]); [NTIMES_D] is the value
    given for [NTIMES], if any. [STREAM_TYPE] is [float] and [OFFSET] is
    0, their defaults. *)
Section Bandwidth.
Variable STREAM_ARRAY_SIZE : Z.
Variable NTIMES_D : option Z.

(** [#ifdef NTIMES / #if NTIMES<=1 / # define NTIMES 10] and
    [#ifndef NTIMES / # define NTIMES 10]. *)
Definition NTIMES : Z :=
  match NTIMES_D with
  | Some n => if n <=? 1 then 10 else n
  | None => 10
  end.

(** [uint32_t size=(STREAM_ARRAY_SIZE/threads) & ~15;] *)
Definition chunk_size (threads : Z) : Z :=
  to_uint32 (Z.land (Z.quot STREAM_ARRAY_SIZE threads) (Z.lnot 15)).

(** The index in [&a[size*tt]]: [size] is [uint32_t], so the product is
    taken modulo 2^32. *)
Definition chunk_start (threads tt : Z) : Z :=
  to_uint32 (chunk_size threads * tt).

(** What the set-up loop stores into [info[tt]]. *)
Definition assignment (threads tt : Z) : argc_t :=
  {| arg_a := chunk_start threads tt;
     arg_b := chunk_start threads tt;
     arg_c := chunk_start threads tt;
     arg_size := chunk_size threads;
     arg_time := None |}.

(** ** Memory and the vector operations *)

(** An element is the bit pattern of a single-precision number. *)
Definition STREAM_TYPE : Type := Z.
Definition float_1_0 : STREAM_TYPE := 0x3F800000.
Definition float_2_0 : STREAM_TYPE := 0x40000000.

Definition array : Type := Z -> STREAM_TYPE.

(** [_mm512_load_ps(p)]: the 16 elements from index [p] on. *)
Definition _mm512_load_ps (m : array) (p : Z) : list STREAM_TYPE :=
  List.map (fun k => m (p + Z.of_nat k)) (seq 0 16).

(** [_mm512_stream_ps(p, key)]: store the 16 elements of [key] from index
    [p] on. The non-temporal hint does not change the stored values. *)
Definition _mm512_stream_ps (m : array) (p : Z) (key : list STREAM_TYPE) : array :=
  fun j => if (p <=? j) && (j <? p + 16) then nth (Z.to_nat (j - p)) key 0 else m j.

(** One vector access of worker [w]: 16 elements of [arr] from [idx]. *)
Inductive access :=
| VLoad (w : nat) (arr : array_id) (idx : Z)
| VStore (w : nat) (arr : array_id) (idx : Z).

Definition access_worker (e : access) : nat :=
  match e with VLoad w _ _ | VStore w _ _ => w end.
Definition access_array (e : access) : array_id :=
  match e with VLoad _ arr _ | VStore _ arr _ => arr end.
Definition access_index (e : access) : Z :=
  match e with VLoad _ _ idx | VStore _ _ idx => idx end.
Definition is_store (e : access) : bool :=
  match e with VStore _ _ _ => true | VLoad _ _ _ => false end.

(** Element [j] is among the 16 that access [e] touches. *)
Definition touches (e : access) (j : Z) : Prop :=
  access_index e <= j < access_index e + 16.

(** ** The worker thread [copy] *)

(** Where a worker is in [copy]: waiting at the first barrier, about to
    test [i < arg->size] with the given [i], waiting at the second
    barrier, or past [arg->time=time]. *)
Inductive phase := Barrier1 | Loop (i : Z) | Barrier2 | Exited.

(** A created thread: its argument [info[tt]], the affinity of the
    attribute it was created with ([None]: not bound to a core), and its
    position in [copy]. *)
Record thread := {
  th_arg : argc_t;
  th_affinity : option Z;
  th_phase : phase
}.

Definition set_phase (p : phase) (th : thread) : thread :=
  {| th_arg := th_arg th; th_affinity := th_affinity th; th_phase := p |}.

Definition set_time (t : float) (arg : argc_t) : argc_t :=
  {| arg_a := arg_a arg; arg_b := arg_b arg; arg_c := arg_c arg;
     arg_size := arg_size arg; arg_time := Some t |}.

(** The state of one trial: both arrays, the threads by worker index
    ([None]: [pthread_create] failed for this index), and the vector
    accesses made so far. *)
Record trial_state := {
  st_a : array;
  st_b : array;
  st_threads : list (option thread);
  st_log : list access
}.

Definition set_threads (ths : list (option thread)) (st : trial_state) : trial_state :=
  {| st_a := st_a st; st_b := st_b st; st_threads := ths; st_log := st_log st |}.

(** One pass through the loop test of worker [w]:
    [for (i=0;i<arg->size;i+=16) { key = load(&a[i]); stream(&b[i], key); }]
    with [uint32_t i]. *)
Definition copy_step (w : nat) (th : thread) (a b : array)
    : option (thread * array * list access) :=
  match th_phase th with
  | Loop i =>
      let arg := th_arg th in
      if i <? arg_size arg then
        let key := _mm512_load_ps a (arg_a arg + i) in
        Some (set_phase (Loop (to_uint32 (i + 16))) th,
              _mm512_stream_ps b (arg_b arg + i) key,
              [VLoad w ArrA (arg_a arg + i); VStore w ArrB (arg_b arg + i)])
      else Some (set_phase Barrier2 th, b, [])
  | _ => None
  end.

Definition at_phase (p : phase) (o : option thread) : bool :=
  match o with
  | Some th =>
      match p, th_phase th with
      | Barrier1, Barrier1 | Barrier2, Barrier2 | Exited, Exited => true
      | Loop i, Loop j => i =? j
      | _, _ => false
      end
  | None => false
  end.

(** The number of threads blocked in [pthread_barrier_wait]. *)
Fixpoint waiting (p : phase) (ths : list (option thread)) : nat :=
  match ths with
  | [] => O
  | o :: ths' => ((if at_phase p o then 1 else 0) + waiting p ths')%nat
  end.

(** A barrier initialised with [count] releases its waiters once [count]
    of them have arrived; each then continues with [next]. *)
Definition barrier_release (count : Z) (p : phase) (next : nat -> thread -> thread)
    (ths : list (option thread)) : option (list (option thread)) :=
  if Z.of_nat (waiting p ths) =? count then
    Some (imap (fun w o => if at_phase p o then next w <$> o else o) ths)
  else None.

(** After the first barrier: [time=mysecond();] and [i=0]. *)
Definition start_loop (w : nat) (th : thread) : thread := set_phase (Loop 0) th.

(** After the second barrier: [time=mysecond()-time; arg->time=time;
    pthread_exit(NULL);]. [elapsed] gives the value of [time] for each
    worker. *)
Definition finish (elapsed : Z -> float) (w : nat) (th : thread) : thread :=
  {| th_arg := set_time (elapsed (Z.of_nat w)) (th_arg th);
     th_affinity := th_affinity th;
     th_phase := Exited |}.

(** A step of the trial: a barrier opens, or some worker runs one pass of
    its loop. *)
Inductive step (count : Z) (elapsed : Z -> float) : trial_state -> trial_state -> Prop :=
| step_start st ths' :
    barrier_release count Barrier1 start_loop (st_threads st) = Some ths' ->
    step count elapsed st (set_threads ths' st)
| step_loop st w th th' b' ev :
    st_threads st !! w = Some (Some th) ->
    copy_step w th (st_a st) (st_b st) = Some (th', b', ev) ->
    step count elapsed st
      {| st_a := st_a st; st_b := b';
         st_threads := <[w := Some th']> (st_threads st);
         st_log := st_log st ++ ev |}
| step_finish st ths' :
    barrier_release count Barrier2 (finish elapsed) (st_threads st) = Some ths' ->
    step count elapsed st (set_threads ths' st).

Definition all_exited (st : trial_state) : Prop :=
  forall w o, st_threads st !! w = Some o ->
    exists th, o = Some th /\ th_phase th = Exited.

(** *** One schedule, as a function *)

(** Worker [w] runs its loop until it leaves it. *)
Fixpoint copy_loop (fuel : nat) (w : nat) (st : trial_state) : trial_state :=
  match fuel with
  | O => st
  | Datatypes.S fuel' =>
      match st_threads st !! w with
      | Some (Some th) =>
          match copy_step w th (st_a st) (st_b st) with
          | Some (th', b', ev) =>
              copy_loop fuel' w
                {| st_a := st_a st; st_b := b';
                   st_threads := <[w := Some th']> (st_threads st);
                   st_log := st_log st ++ ev |}
          | None => st
          end
      | _ => st
      end
  end.

Definition thread_fuel (st : trial_state) (w : nat) : nat :=
  match st_threads st !! w with
  | Some (Some th) => Z.to_nat (arg_size (th_arg th) / 16 + 2)
  | _ => O
  end.

Definition open_barrier (count : Z) (p : phase) (next : nat -> thread -> thread)
    (st : trial_state) : trial_state :=
  match barrier_release count p next (st_threads st) with
  | Some ths' => set_threads ths' st
  | None => st
  end.

(** The workers run one after the other between the two barriers. *)
Definition run_trial (count : Z) (elapsed : Z -> float) (st : trial_state) : trial_state :=
  let st1 := open_barrier count Barrier1 start_loop st in
  let st2 := fold_left (fun s w => copy_loop (thread_fuel s w) w s)
               (seq 0 (length (st_threads st1))) st1 in
  open_barrier count Barrier2 (finish elapsed) st2.

(** ** Double-precision arithmetic and the statistics *)

(** Conversion of an integer to [double] (round to nearest even). *)
Definition double_of_Z (z : Z) : float :=
  SF2Prim (binary_normalize prec emax z 0 false).

(** [FLT_MAX] of [<float.h>], as a [double]. *)
Definition FLT_MAX : float := 0x1.fffffep+127%float.

(** [# define MIN(x,y) ((x)<(y)?(x):(y))] and
    [# define MAX(x,y) ((x)>(y)?(x):(y))] *)
Definition MIN (x y : float) : float := if (x <? y)%float then x else y.
Definition MAX (x y : float) : float := if (y <? x)%float then x else y.

(** Entry 0 of [avgtime], [maxtime] and [mintime]; the summary loops run
    over [j<1] only. *)
Record stats := {
  avgtime : float;
  maxtime : float;
  mintime : float
}.

(** [static double avgtime[4] = {0}, maxtime[4] = {0},
    mintime[4] = {FLT_MAX,FLT_MAX,FLT_MAX,FLT_MAX};] *)
Definition stats_init : stats :=
  {| avgtime := 0%float; maxtime := 0%float; mintime := FLT_MAX |}.

(** [times[0][k]] *)
Definition times_at (times : list float) (k : Z) : float :=
  default 0%float (times !! Z.to_nat k).

(** Body of [for (k=1; k<NTIMES; k++)]. *)
Definition summary_step (times : list float) (s : stats) (k : Z) : stats :=
  {| avgtime := (avgtime s + times_at times k)%float;
     mintime := MIN (mintime s) (times_at times k);
     maxtime := MAX (maxtime s) (times_at times k) |}.

(** The summary: the loop over [k = 1 .. NTIMES-1], then
    [avgtime[j] = avgtime[j]/(double)(NTIMES-1)]. *)
Definition summary (times : list float) : stats :=
  let s := fold_left (summary_step times) (seqZ 1 (NTIMES - 1)) stats_init in
  {| avgtime := (avgtime s / double_of_Z (NTIMES - 1))%float;
     maxtime := maxtime s;
     mintime := mintime s |}.

(** [static double bytes[4]]: 2, 2, 3 and 3 times
    [sizeof(STREAM_TYPE) * STREAM_ARRAY_SIZE], computed in [size_t] and
    stored as [double]. *)
Definition bytes (j : Z) : float :=
  double_of_Z (to_uint64 ((if j <? 2 then 2 else 3) * sizeof_STREAM_TYPE * STREAM_ARRAY_SIZE)).

(** The nearest [double] to the literal [1.0E-06]. *)
Definition micro : float := 0x1.0c6f7a0b5ed8dp-20%float.

(** [1.0E-06 * bytes[j]/mintime[j]] *)
Definition bandwidth (s : stats) : float := (micro * bytes 0 / mintime s)%float.

(** ** The environment and [main] *)

(** What the run depends on and the program does not decide: the
    argument, the contents of freshly allocated memory, whether each
    system call succeeds, and what [gettimeofday] gives worker [tt] of
    trial [k] at its two calls of [mysecond] ([tv_sec], [tv_usec]). *)
Record Env := {
  argv1 : Z;                          (* atoll(argv[1]) *)
  heap_a : array;
  heap_b : array;
  memalign_ok : array_id -> bool;     (* posix_memalign(&a|&b|&c, ...) == 0 *)
  setaffinity_ok : Z -> Z -> bool;    (* pthread_attr_setaffinity_np, trial k, worker tt *)
  create_ok : Z -> Z -> bool;         (* pthread_create, trial k, worker tt *)
  time_start : Z -> Z -> Z * Z;       (* after the first barrier *)
  time_end : Z -> Z -> Z * Z          (* after the second barrier *)
}.

(** [mysecond]: [(double) tp.tv_sec + (double) tp.tv_usec * 1.e-6] *)
Definition mysecond (tp : Z * Z) : float :=
  (double_of_Z tp.1 + double_of_Z tp.2 * micro)%float.

(** What worker [tt] of trial [k] stores into [arg->time]:
    [time=mysecond(); ... time=mysecond()-time;] *)
Definition elapsed (env : Env) (k tt : Z) : float :=
  (mysecond (time_end env k tt) - mysecond (time_start env k tt))%float.

(** The global pointers [a], [b], [c]: whether each points to a block
    (it is null otherwise), and the contents of [a] and [b]. *)
Record memory := {
  a_ok : bool;
  b_ok : bool;
  c_ok : bool;
  arr_a : array;
  arr_b : array
}.

(** [posix_memalign] for one of [&a], [&b], [&c]; the return value is not
    looked at. *)
Definition posix_memalign (env : Env) (arr : array_id) : M bool :=
  emit (EvMemalign arr (memalign_ok env arr)) ;;; ret (memalign_ok env arr).

Definition fill (v : STREAM_TYPE) (m : array) : array :=
  fun j => if (0 <=? j) && (j <? STREAM_ARRAY_SIZE) then v else m j.

(** [for (j=0; j<STREAM_ARRAY_SIZE; j++) { a[j] = 1.0; b[j] = 2.0; }]
    The first store through a null pointer is a fault. *)
Definition init_arrays (m : memory) : M memory :=
  if 0 <? STREAM_ARRAY_SIZE then
    if a_ok m && b_ok m then
      ret {| a_ok := a_ok m; b_ok := b_ok m; c_ok := c_ok m;
             arr_a := fill float_1_0 (arr_a m);
             arr_b := fill float_2_0 (arr_b m) |}
    else fault
  else ret m.

(** Body of the first [for (tt=0;tt<threads;++tt)]: the attribute (its
    affinity, if [pthread_attr_setaffinity_np] succeeded) and the work
    assignment of worker [tt]. The arrays [attr] and [info] have 288
    entries. *)
Definition setup_body (env : Env) (k threads tt : Z)
    (s : list (option Z) * list argc_t) : M (list (option Z) * list argc_t) :=
  if MAX_THREADS <=? tt then fault
  else
    let cpu := get_cpu_id tt in
    let ok := setaffinity_ok env k tt in
    emit (EvSetAffinity k tt cpu ok) ;;;
    ret (s.1 ++ [if ok then Some cpu else None], s.2 ++ [assignment threads tt]).

(** Body of the second loop:
    [pthread_create] with [&tid[tt]], [&attr[tt]], [copy] and [&info[tt]].
    The return value is not looked at. *)
Definition create_body (env : Env) (k : Z) (attr : list (option Z)) (info : list argc_t)
    (tt : Z) (ths : list (option thread)) : M (list (option thread)) :=
  match attr !! Z.to_nat tt, info !! Z.to_nat tt with
  | Some aff, Some arg =>
      let ok := create_ok env k tt in
      emit (EvCreate k tt ok) ;;;
      ret (ths ++ [if ok then Some {| th_arg := arg; th_affinity := aff; th_phase := Barrier1 |}
                   else None])
  | _, _ => fault
  end.

(** Body of the third loop, [for (tt = 0 ; tt != threads ; ++tt)]:
    [pthread_join(tid[tt], NULL); times[0][k]+=info[tt].time;]
    Joining what is not the handle of a thread of this trial is a fault;
    joining a thread that never exits blocks. *)
Definition join_body (k : Z) (ths : list (option thread)) (tt : Z) (acc : float) : M float :=
  if MAX_THREADS <=? tt then fault
  else
    match ths !! Z.to_nat tt with
    | Some (Some th) =>
        match th_phase th, arg_time (th_arg th) with
        | Exited, Some t => emit (EvJoin k tt) ;;; ret (acc + t)%float
        | Exited, None => fault
        | _, _ => blocked
        end
    | _ => fault
    end.

(** The first loop of a trial: attributes and assignments. The body
    faults at [tt = 288], so 289 passes are all the loop can make. *)
Definition setup (env : Env) (threads k : Z) : M (list (option Z) * list argc_t) :=
  for_loop 289 (fun tt => tt <? threads) (setup_body env k threads) 0 ([], []).

(** The first two loops of a trial: the threads, each blocked at the
    first barrier until all have arrived. *)
Definition spawn (env : Env) (threads k : Z) : M (list (option thread)) :=
  s <- setup env threads k ;;
  for_loop 289 (fun tt => tt <? threads) (create_body env k s.1 s.2) 0 [].

(** The trial as the threads find it. The barrier was initialised by
    [pthread_barrier_init(&barrier, NULL, threads)], whose count is
    [unsigned]. *)
Definition trial_init (a b : array) (ths : list (option thread)) : trial_state :=
  {| st_a := a; st_b := b; st_threads := ths; st_log := [] |}.

Definition barrier_count (threads : Z) : Z := to_uint32 threads.

(** Trial [k], the body of [for (k=0; k<NTIMES; k++)]. It yields the
    memory after the trial and [times[0][k]]. A vector access through a
    null pointer is a fault. *)
Definition trial (env : Env) (threads k : Z) (m : memory) : M (memory * float) :=
  ths <- spawn env threads k ;;
  let st := run_trial (barrier_count threads) (elapsed env k)
              (trial_init (arr_a m) (arr_b m) ths) in
  (match st_log st with
   | [] => ret tt
   | _ :: _ => if a_ok m && b_ok m then ret tt else fault
   end) ;;;
  t <- for_loop 289 (fun tt => negb (tt =? threads)) (join_body k (st_threads st)) 0 0%float ;;
  ret ({| a_ok := a_ok m; b_ok := b_ok m; c_ok := c_ok m;
          arr_a := st_a st; arr_b := st_b st |},
       (t / double_of_Z threads)%float).

Definition trials_body (env : Env) (threads k : Z) (s : memory * list float)
    : M (memory * list float) :=
  r <- trial env threads k s.1 ;;
  ret (r.1, s.2 ++ [r.2]).

(** [for (k=0; k<NTIMES; k++)]: the memory after the last trial and the
    row [times[0]]. *)
Definition run_trials (env : Env) (threads : Z) (m : memory) : M (memory * list float) :=
  for_loop (Z.to_nat NTIMES) (fun k => k <? NTIMES) (trials_body env threads) 0 (m, []).

(** [threads=atoll(argv[1]);] with [int threads]. *)
Definition thread_count (env : Env) : Z := to_int32 (argv1 env).

(** [main] from the initialisation of the arrays on, given the pointers
    the three allocations left. *)
Definition main_after_alloc (env : Env) (m0 : memory) : M Z :=
  m <- init_arrays m0 ;;
  let threads := thread_count env in
  s <- run_trials env threads m ;;
  emit (EvPrintf threads (bandwidth (summary s.2))) ;;;
  ret 0.

(** [main], for the build without [MP] and without [MCDRAM]. *)
Definition main (env : Env) : M Z :=
  oka <- posix_memalign env ArrA ;;
  okb <- posix_memalign env ArrB ;;
  okc <- posix_memalign env ArrC ;;
  main_after_alloc env {| a_ok := oka; b_ok := okb; c_ok := okc;
                          arr_a := heap_a env; arr_b := heap_b env |}.

(** What the program writes to standard output. *)
Definition stdout (tr : list event) : list (Z * float) :=
  omap (fun e => match e with EvPrintf n bw => Some (n, bw) | _ => None end) tr.

End Bandwidth.

(** * Closed forms and invariants *)

(** ** What the loops of a trial build *)

(** The affinity of [attr[tt]] after the set-up loop: core [tt] if the
    call succeeded, none otherwise. *)
Definition attr_of (env : Env) (k tt : Z) : option Z :=
  if setaffinity_ok env k tt then Some (get_cpu_id tt) else None.

(** Thread [tt] after the creation loop. *)
Definition thread_of (A : Z) (env : Env) (threads k tt : Z) : option thread :=
  if create_ok env k tt then
    Some {| th_arg := assignment A threads tt; th_affinity := attr_of env k tt;
            th_phase := Barrier1 |}
  else None.

Definition spawned (A : Z) (env : Env) (threads k : Z) : list (option thread) :=
  thread_of A env threads k <$> seqZ 0 threads.

(** The pointers after the three allocations, and the events of these. *)
Definition allocated (env : Env) : memory :=
  {| a_ok := memalign_ok env ArrA; b_ok := memalign_ok env ArrB;
     c_ok := memalign_ok env ArrC; arr_a := heap_a env; arr_b := heap_b env |}.

Definition alloc_events (env : Env) : list event :=
  [EvMemalign ArrA (memalign_ok env ArrA);
   EvMemalign ArrB (memalign_ok env ArrB);
   EvMemalign ArrC (memalign_ok env ArrC)].

(** ** Results and traces *)

Definition is_ok {A} (r : result A) : bool :=
  match r with Ok _ => true | _ => false end.

Definition no_output (e : event) : Prop :=
  match e with EvPrintf _ _ => False | _ => True end.

Definition quiet {A} (m : M A) : Prop := Forall no_output m.1.

(** What the caller of the program sees: its output and how it ended. *)
Definition observable (r : M Z) : list (Z * float) * result Z := (stdout r.1, r.2).

(** ** The invariant of a trial *)

(** Element [j] lies in the view of some worker. *)
Definition covered (A T j : Z) : Prop :=
  exists w, 0 <= w < T /\
    chunk_start A T w <= j < chunk_start A T w + chunk_size A T.

(** A logged access is a whole vector inside the view of its worker: a
    load from [a] or a store to [b]. *)
Definition access_ok (A T : Z) (e : access) : Prop :=
  let w := Z.of_nat (access_worker e) in
  w < T /\
  exists i, 0 <= i /\ i + 16 <= chunk_size A T /\ i mod 16 = 0 /\
    access_index e = chunk_start A T w + i /\
    access_array e = (if is_store e then ArrB else ArrA).

(** Worker [w] holds its assignment, and what lies behind its loop
    counter has been copied. *)
Definition thread_inv (A T : Z) (aff : Z -> option Z) (el : Z -> float)
    (a0 b : array) (w : nat) (th : thread) : Prop :=
  let S := chunk_size A T in
  let off := chunk_start A T (Z.of_nat w) in
  arg_a (th_arg th) = off /\ arg_b (th_arg th) = off /\
  arg_size (th_arg th) = S /\ th_affinity th = aff (Z.of_nat w) /\
  match th_phase th with
  | Barrier1 => True
  | Loop i =>
      0 <= i <= S /\ i mod 16 = 0 /\
      forall m, 0 <= m < i -> b (off + m) = a0 (off + m)
  | Barrier2 => forall m, 0 <= m < S -> b (off + m) = a0 (off + m)
  | Exited =>
      (forall m, 0 <= m < S -> b (off + m) = a0 (off + m)) /\
      arg_time (th_arg th) = Some (el (Z.of_nat w))
  end.

(** [a] is as it was, every element of [b] is as it was or is the
    element of [a] at the same index, inside some view. *)
Definition trial_inv (A T : Z) (aff : Z -> option Z) (el : Z -> float)
    (a0 b0 : array) (st : trial_state) : Prop :=
  st_a st = a0 /\
  Z.of_nat (length (st_threads st)) = Z.max 0 T /\
  (forall w th, st_threads st !! w = Some (Some th) ->
     thread_inv A T aff el a0 (st_b st) w th) /\
  (forall j, st_b st j = b0 j \/ (st_b st j = a0 j /\ covered A T j)) /\
  Forall (access_ok A T) (st_log st).

(** In the sequential schedule: workers below [n] wait at the second
    barrier, the others are about to enter their loop. *)
Definition halfway (S : Z) (n : nat) (ths : list (option thread)) : Prop :=
  forall w o, ths !! w = Some o ->
    exists th, o = Some th /\ arg_size (th_arg th) = S /\
      th_phase th = if (w <? n)%nat then Barrier2 else Loop 0.

(** ** Statistics *)

(** [x] is not a NaN. *)
Definition number (x : float) : Prop := (x <=? x)%float = true.

Definition stats_add (s : stats) (t : float) : stats :=
  {| avgtime := (avgtime s + t)%float;
     mintime := MIN (mintime s) t;
     maxtime := MAX (maxtime s) t |}.

Definition is_minimum (m : float) (l : list float) : Prop :=
  m ∈ l /\ forall t, t ∈ l -> (m <=? t)%float = true.

Definition is_maximum (m : float) (l : list float) : Prop :=
  m ∈ l /\ forall t, t ∈ l -> (t <=? m)%float = true.

(** * The specification's words *)

(** Section 4.1: [floor(A/T)] rounded down to a multiple of 16. *)
Definition spec_chunk_size (A T : Z) : Z := 16 * (A / T / 16).

(** Section 4.4: the arithmetic mean of the slots, in [double]. *)
Definition mean_of (slots : list float) : float :=
  (fold_left PrimFloat.add slots 0 / double_of_Z (Z.of_nat (length slots)))%float.

Definition trial_mean (env : Env) (threads k : Z) : float :=
  mean_of (elapsed env k <$> seqZ 0 threads).

Definition trial_means (n : option Z) (env : Env) (threads : Z) : list float :=
  trial_mean env threads <$> seqZ 0 (NTIMES n).

(** The partition of section 4.1: the chunk size is [spec_chunk_size],
    worker [i] gets the range from [i*S], [T] ranges are assigned, and
    together they hold [T*S <= A] elements. *)
Definition partition_as_specified (A T : Z) : Prop :=
  let S := spec_chunk_size A T in
  T * S <= A /\
  forall env k, exists tr attr info,
    setup A env T k = (tr, Ok (attr, info)) /\
    Z.of_nat (length info) = T /\
    (forall i arg, info !! i = Some arg ->
       arg_size arg = S /\
       arg_a arg = Z.of_nat i * S /\ arg_b arg = Z.of_nat i * S) /\
    foldr Z.add 0 (arg_size <$> info) = T * S.

(** Copy correctness: however the workers of a trial interleave, once
    all have exited [b] equals [a] on each range [i*S .. i*S+S-1]. *)
Definition copy_as_specified (A T : Z) : Prop :=
  let S := chunk_size A T in
  forall env k a b tr ths st,
    spawn A env T k = (tr, Ok ths) ->
    rtc (step (barrier_count T) (elapsed env k)) (trial_init a b ths) st ->
    all_exited st ->
    forall i m, 0 <= i < T -> 0 <= m < S ->
      st_b st (i * S + m) = st_a st (i * S + m).

(** The frame of a trial, at any moment of it: nothing at or above [T*S]
    is touched, every store goes to [b] inside the range of the worker
    that makes it, [a] is unchanged, and so is [b] outside [0 .. T*S-1]. *)
Definition frame_as_specified (A T : Z) : Prop :=
  let S := chunk_size A T in
  forall env k a b tr ths st,
    spawn A env T k = (tr, Ok ths) ->
    rtc (step (barrier_count T) (elapsed env k)) (trial_init a b ths) st ->
    (forall e j, e ∈ st_log st -> touches e j -> j < T * S) /\
    (forall e j, e ∈ st_log st -> is_store e = true -> touches e j ->
       access_array e = ArrB /\
       Z.of_nat (access_worker e) * S <= j < (Z.of_nat (access_worker e) + 1) * S) /\
    st_a st = a /\
    (forall j, ~ (0 <= j < T * S) -> st_b st j = b j).

(** In-bounds safety, at any moment of a trial: the chunk size is a
    multiple of 16, every access is a whole vector at a multiple of 16
    inside the view of its worker, and every element touched lies in
    the range of that worker and below [T*S <= A]. *)
Definition in_bounds_as_specified (A T : Z) : Prop :=
  let S := chunk_size A T in
  S mod 16 = 0 /\ T * S <= A /\
  forall env k a b tr ths st,
    spawn A env T k = (tr, Ok ths) ->
    rtc (step (barrier_count T) (elapsed env k)) (trial_init a b ths) st ->
    forall e, e ∈ st_log st ->
      let w := Z.of_nat (access_worker e) in
      let arg := assignment A T w in
      (exists i, 0 <= i /\ i + 16 <= arg_size arg /\ i mod 16 = 0 /\
         access_index e = (if is_store e then arg_b arg else arg_a arg) + i) /\
      forall j, touches e j -> w * S <= j < (w + 1) * S /\ 0 <= j < T * S.

(** The statistics of section 4.4 and 8: trial 0 does not count, the
    average is the sum of the other times over [NTIMES-1], [mintime] and
    [maxtime] are their minimum and maximum, and the average lies
    between the two. *)
Definition aggregate_as_specified (n : option Z) (times : list float) : Prop :=
  let rest := drop 1 times in
  let s := summary n times in
  (forall t0, summary n (<[0%nat := t0]> times) = s) /\
  avgtime s = (fold_left PrimFloat.add rest 0 / double_of_Z (NTIMES n - 1))%float /\
  is_minimum (mintime s) rest /\
  is_maximum (maxtime s) rest /\
  (mintime s <=? avgtime s)%float = true /\
  (avgtime s <=? maxtime s)%float = true.

(** Configuration rejection (section 7): a thread count that is not
    positive or above the maximum, or a chunk size of 0, ends the run
    before any allocation, any thread and any output. *)
Definition bad_configuration (A T : Z) : Prop :=
  T <= 0 \/ MAX_THREADS < T \/ chunk_size A T = 0.

Definition rejected_up_front (r : M Z) : Prop :=
  is_ok r.2 = false /\ stdout r.1 = [] /\
  forall e, e ∈ r.1 ->
    match e with EvMemalign _ _ | EvCreate _ _ _ => False | _ => True end.

Definition rejection_as_specified (A : Z) (n : option Z) : Prop :=
  forall env, bad_configuration A (thread_count env) ->
    rejected_up_front (main A n env).





(** * Example inputs *)

(** An environment in which every system call succeeds and the clock
    advances by 100000 microseconds between the two readings of every
    worker. *)
Definition env_ok (n : Z) : Env :=
  {| argv1 := n;
     heap_a := fun _ => 0; heap_b := fun _ => 0;
     memalign_ok := fun _ => true;
     setaffinity_ok := fun _ _ => true;
     create_ok := fun _ _ => true;
     time_start := fun _ _ => (0, 0);
     time_end := fun _ _ => (0, 100000) |}.




(** Three workers; in every trial they read the clock at the same
    microsecond and stop 50000, 50001 and 50002 microseconds later. *)
Definition env_three : Env :=
  {| argv1 := 3;
     heap_a := fun _ => 0; heap_b := fun _ => 0;
     memalign_ok := fun _ => true;
     setaffinity_ok := fun _ _ => true;
     create_ok := fun _ _ => true;
     time_start := fun _ _ => (1700000000, 250000);
     time_end := fun _ tt => (1700000000, 300000 + tt) |}.

(** One worker; the wall clock is set back by a tenth of a second while
    it runs, in every trial. *)
Definition env_clock_back : Env :=
  {| argv1 := 1;
     heap_a := fun _ => 0; heap_b := fun _ => 0;
     memalign_ok := fun _ => true;
     setaffinity_ok := fun _ _ => true;
     create_ok := fun _ _ => true;
     time_start := fun _ _ => (1700000000, 350000);
     time_end := fun _ _ => (1700000000, 250000) |}.


(** Three workers on 2^33 elements ([-DSTREAM_ARRAY_SIZE=8589934592]):
    the state in which the first barrier has opened and worker 2 has run
    one pass of its loop. *)
Definition early_state (a b : array) : trial_state :=
  copy_loop 1 2
    (open_barrier (barrier_count 3) Barrier1 start_loop
       (trial_init a b (spawned (2 ^ 33) (env_ok 3) 3 0))).

Definition mem_example : memory :=
  {| a_ok := true; b_ok := true; c_ok := true;
     arr_a := fun j => j; arr_b := fun _ => 0 |}.

Definition times_example : list float := [5; 1; 2]%float.

(** * More of [bandwidth.c] *)

(** ** [copy] on an arbitrary argument *)

(** One thread past the first barrier, with the argument [arg]: what
    [copy] does between its two barriers when it runs alone. *)
Definition solo (arg : argc_t) (a b : array) : trial_state :=
  {| st_a := a; st_b := b;
     st_threads := [Some {| th_arg := arg; th_affinity := None; th_phase := Loop 0 |}];
     st_log := [] |}.

(** The number of elements the loop of [copy] moves for a given [size]:
    [size] rounded up to a multiple of 16. *)
Definition copied (size : Z) : Z := 16 * ((size + 15) / 16).

(** ** The two barriers of [copy] *)

(** No worker is past the first barrier: nothing has been accessed and
    [b] is as the trial found it. *)
Definition before_start (b0 : array) (st : trial_state) : Prop :=
  st_b st = b0 /\ st_log st = [] /\
  forall w th, st_threads st !! w = Some (Some th) -> th_phase th = Barrier1.

(** Every thread exists and is between the two barriers. *)
Definition copying (st : trial_state) : Prop :=
  forall w o, st_threads st !! w = Some o ->
    exists th, o = Some th /\ (th_phase th = Barrier2 \/ exists i, th_phase th = Loop i).

Definition barrier_inv (b0 : array) (st : trial_state) : Prop :=
  before_start b0 st \/ copying st \/ all_exited st.

(** ** The calls of a run, in program order *)



(** ** The argument *)

(** The environment with another value of [atoll(argv[1])]. *)
Definition with_argv (env : Env) (v : Z) : Env :=
  {| argv1 := v;
     heap_a := heap_a env; heap_b := heap_b env;
     memalign_ok := memalign_ok env;
     setaffinity_ok := setaffinity_ok env;
     create_ok := create_ok env;
     time_start := time_start env;
     time_end := time_end env |}.

(** ** The build with [MP]: the serial kernel *)

(** [b[j]=a[j];] *)
Definition store (m : array) (j : Z) (v : STREAM_TYPE) : array :=
  fun i => if i =? j then v else m i.

(** [for (j=0; j<STREAM_ARRAY_SIZE; j+=1) { b[j]=a[j]; }] *)
Definition serial_copy (A : Z) (a b : array) : array :=
  fold_left (fun m j => store m j (a j)) (seqZ 0 A) b.

(** Trial [k] of the build with [MP] and without [TUNED]:
    [times[0][k] = mysecond();], the kernel,
    [times[0][k]=mysecond()-times[0][k];]. The main thread reads the
    clock; its two readings are those of slot 0 of the trial. *)
Definition trial_MP (A : Z) (env : Env) (k : Z) (m : memory) : M (memory * float) :=
  if 0 <? A then
    if a_ok m && b_ok m then
      ret ({| a_ok := a_ok m; b_ok := b_ok m; c_ok := c_ok m;
              arr_a := arr_a m; arr_b := serial_copy A (arr_a m) (arr_b m) |},
           elapsed env k 0)
    else fault
  else ret (m, elapsed env k 0).

Definition trials_body_MP (A : Z) (env : Env) (k : Z) (s : memory * list float)
    : M (memory * list float) :=
  r <- trial_MP A env k s.1 ;;
  ret (r.1, s.2 ++ [r.2]).

Definition run_trials_MP (A : Z) (n : option Z) (env : Env) (m : memory)
    : M (memory * list float) :=
  for_loop (Z.to_nat (NTIMES n)) (fun k => k <? NTIMES n) (trials_body_MP A env) 0 (m, []).

(** [main] for the build with [MP], from the initialisation of the
    arrays on. [threads] is read and printed, and not used otherwise. *)
Definition main_after_alloc_MP (A : Z) (n : option Z) (env : Env) (m0 : memory) : M Z :=
  m <- init_arrays A m0 ;;
  let threads := thread_count env in
  s <- run_trials_MP A n env m ;;
  emit (EvPrintf threads (bandwidth A (summary n s.2))) ;;;
  ret 0.

Definition main_MP (A : Z) (n : option Z) (env : Env) : M Z :=
  oka <- posix_memalign env ArrA ;;
  okb <- posix_memalign env ArrB ;;
  okc <- posix_memalign env ArrC ;;
  main_after_alloc_MP A n env {| a_ok := oka; b_ok := okb; c_ok := okc;
                                 arr_a := heap_a env; arr_b := heap_b env |}.

(** ** [checktick] *)

Definition INT_MIN : Z := - 2 ^ 31.
Definition INT_MAX : Z := 2 ^ 31 - 1.

(** [(int) x] for a [double]: the fraction is dropped; the conversion is
    undefined when the result is not an [int]. *)
Definition int_of_double (x : float) : M Z :=
  match Prim2SF x with
  | S754_zero _ => ret 0
  | S754_finite s m e =>
      let v := if 0 <=? e then Z.pos m * 2 ^ e else Z.pos m / 2 ^ (- e) in
      let v := if s then - v else v in
      if (INT_MIN <=? v) && (v <=? INT_MAX) then ret v else fault
  | _ => fault
  end.

(** The macros [MIN] and [MAX] at type [int]. *)
Definition MIN_int (x y : Z) : Z := if x <? y then x else y.
Definition MAX_int (x y : Z) : Z := if y <? x then x else y.

(** [# define M 20] *)
Definition M_samples : Z := 20.

(** [while( ((t2=mysecond()) - t1) < 1.0E-6 ) ;]
    [clock p] is what call number [p] of [gettimeofday] gives; the
    result is [t2] and the number of the next call. The loop spins as
    long as the clock does not advance: [fuel] bounds the readings it
    looks at. *)
Fixpoint tick_wait (fuel : nat) (clock : nat -> Z * Z) (t1 : float) (p : nat)
    : M (float * nat) :=
  match fuel with
  | O => blocked
  | Datatypes.S fuel' =>
      let t2 := mysecond (clock p) in
      if (t2 - t1 <? micro)%float then tick_wait fuel' clock t1 (Datatypes.S p)
      else ret (t2, Datatypes.S p)
  end.

(** Body of the first loop: [t1 = mysecond();], the wait, and
    [timesfound[i] = t1 = t2;]. *)
Definition sample_body (fuel : nat) (clock : nat -> Z * Z) (i : Z)
    (s : list float * nat) : M (list float * nat) :=
  let t1 := mysecond (clock s.2) in
  r <- tick_wait fuel clock t1 (Datatypes.S s.2) ;;
  ret (s.1 ++ [r.1], r.2).

(** [Delta = (int)( 1.0E6 * (timesfound[i]-timesfound[i-1]));] *)
Definition Delta (timesfound : list float) (i : Z) : M Z :=
  int_of_double (1000000 * (times_at timesfound i - times_at timesfound (i - 1)))%float.

(** Body of the second loop: [minDelta = MIN(minDelta, MAX(Delta,0));] *)
Definition delta_body (timesfound : list float) (i : Z) (minDelta : Z) : M Z :=
  d <- Delta timesfound i ;;
  ret (MIN_int minDelta (MAX_int d 0)).

Definition checktick (fuel : nat) (clock : nat -> Z * Z) : M Z :=
  s <- for_loop 20 (fun i => i <? M_samples) (sample_body fuel clock) 0 ([], 0%nat) ;;
  for_loop 20 (fun i => i <? M_samples) (delta_body s.1) 1 1000000.

(** A clock that advances by 3 microseconds from one call to the next. *)
Definition clock_example (p : nat) : Z * Z := (1700000000, 3 * Z.of_nat p).

(** ** Progress from any state of a trial *)

(** Every thread exists, has chunk size [S], and the first [n] have left
    their loops; the others are in their loops or have left them. *)
Definition midway (S : Z) (n : nat) (ths : list (option thread)) : Prop :=
  forall w o, ths !! w = Some o ->
    exists th, o = Some th /\ arg_size (th_arg th) = S /\
      (th_phase th = Barrier2 \/
       ((n <= w)%nat /\ exists i, th_phase th = Loop i /\ 0 <= i <= S /\ i mod 16 = 0)).

(** [x] is a finite number. *)
Definition finite (x : float) : Prop :=
  match Prim2SF x with S754_finite _ _ _ | S754_zero _ => True | _ => False end.

(** ** More example inputs *)

(** 64 elements, two workers: the trial run by [run_trial], worker 0
    first. *)
Definition final_example : trial_state :=
  run_trial (barrier_count 2) (elapsed (env_ok 2) 0)
    (trial_init (fun j => j) (fun _ => 0) (spawned 64 (env_ok 2) 2 0)).

(** The same trial on another schedule: worker 1 makes one pass, then
    worker 0 runs its loop, then worker 1 the rest of its own. *)
Definition other_example : trial_state :=
  open_barrier (barrier_count 2) Barrier2 (finish (elapsed (env_ok 2) 0))
    (copy_loop 5 1
       (copy_loop 5 0
          (copy_loop 1 1
             (open_barrier (barrier_count 2) Barrier1 start_loop
                (trial_init (fun j => j) (fun _ => 0) (spawned 64 (env_ok 2) 2 0)))))).

(** An argument of [copy] whose size, 40, is not a multiple of 16, and
    one whose size is above 2^32 - 16. *)
Definition arg_odd : argc_t :=
  {| arg_a := 0; arg_b := 0; arg_c := 0; arg_size := 40; arg_time := None |}.

Definition arg_huge : argc_t :=
  {| arg_a := 0; arg_b := 0; arg_c := 0; arg_size := 2 ^ 32 - 8; arg_time := None |}.


(** * Properties *)

Lemma land_lnot_15 x : Z.land x (Z.lnot 15) = 16 * (x / 16).
Proof.
  change 15 with (Z.ones 4).
  rewrite <- Z.ldiff_land, Z.ldiff_ones_r by lia.
  rewrite Z.shiftr_div_pow2, Z.shiftl_mul_pow2 by lia.
  change (2 ^ 4) with 16. lia.
Qed.

Lemma chunk_size_eq A T :
  chunk_size A T = 16 * ((Z.quot A T / 16) mod 2 ^ 28).
Proof.
  unfold chunk_size, to_uint32. rewrite land_lnot_15.
  change (2 ^ 32) with (16 * 2 ^ 28).
  rewrite Z.mul_mod_distr_l by lia. reflexivity.
Qed.

Lemma chunk_size_range A T : 0 <= chunk_size A T <= 2 ^ 32 - 16.
Proof.
  rewrite chunk_size_eq.
  pose proof (Z.mod_pos_bound (Z.quot A T / 16) (2 ^ 28) ltac:(lia)). lia.
Qed.

Lemma chunk_size_mod16 A T : chunk_size A T mod 16 = 0.
Proof.
  rewrite chunk_size_eq, Z.mul_comm. apply Z.mod_mul. lia.
Qed.

Lemma chunk_size_small A T :
  0 <= A < 2 ^ 32 -> 1 <= T -> chunk_size A T = 16 * (A / T / 16).
Proof.
  intros HA HT. rewrite chunk_size_eq, Z.quot_div_nonneg by lia.
  assert (0 <= A / T) by (apply Z.div_pos; lia).
  assert (A / T <= A) by (apply Z.div_le_upper_bound; nia).
  rewrite Z.mod_small; [reflexivity|].
  split; [apply Z.div_pos; lia|].
  apply Z.div_lt_upper_bound; lia.
Qed.

Lemma chunk_total_le A T :
  0 <= A -> 1 <= T -> T * chunk_size A T <= A.
Proof.
  intros HA HT. rewrite chunk_size_eq, Z.quot_div_nonneg by lia.
  assert (0 <= A / T) by (apply Z.div_pos; lia).
  pose proof (Z.mod_le (A / T / 16) (2 ^ 28) ltac:(apply Z.div_pos; lia) ltac:(lia)).
  pose proof (Z.mul_div_le (A / T) 16 ltac:(lia)).
  pose proof (Z.mul_div_le A T ltac:(lia)).
  pose proof (Z.mod_pos_bound (A / T / 16) (2 ^ 28) ltac:(lia)).
  nia.
Qed.

Lemma chunk_start_small A T tt :
  0 <= A < 2 ^ 32 -> 1 <= T -> 0 <= tt < T ->
  chunk_start A T tt = tt * chunk_size A T.
Proof.
  intros HA HT Htt. unfold chunk_start, to_uint32.
  pose proof (chunk_total_le A T ltac:(lia) HT).
  pose proof (chunk_size_range A T).
  rewrite Z.mod_small; nia.
Qed.

(** Monad laws used below *)
Lemma bind_ok {A B} (m : M A) (f : A -> M B) tr x :
  m = (tr, Ok x) -> bind m f = (tr ++ (f x).1, (f x).2).
Proof. intros ->. simpl. destruct (f x); reflexivity. Qed.


Lemma stdout_app tr1 tr2 : stdout (tr1 ++ tr2) = stdout tr1 ++ stdout tr2.
Proof. apply omap_app. Qed.

Lemma stdout_quiet tr : Forall no_output tr -> stdout tr = [].
Proof.
  induction 1 as [|e tr He _ IH]; [reflexivity|].
  destruct e; simpl in *; try contradiction; exact IH.
Qed.

Section Loops.
Context {S : Type} (cond : Z -> bool) (body : Z -> S -> M S).
Context (Inv : Z -> S -> Prop) (P : event -> Prop).

(** A loop whose test holds from [tt] up to [T] (excluded) and whose body
    keeps the invariant runs to [T]. *)
Lemma for_loop_upto T fuel tt s :
  (forall x, tt <= x < T -> cond x = true) -> cond T = false ->
  (forall x s, tt <= x < T -> Inv x s ->
     exists tr s', body x s = (tr, Ok s') /\ Forall P tr /\ Inv (x + 1) s') ->
  tt <= T -> T - tt <= Z.of_nat fuel -> Inv tt s ->
  exists tr s', for_loop fuel cond body tt s = (tr, Ok s') /\ Forall P tr /\ Inv T s'.
Proof.
  revert tt s. induction fuel as [|fuel IH]; intros tt s Hc HT Hb Hle Hf Hi.
  - assert (tt = T) as -> by lia. simpl. rewrite HT. exists [], s. auto.
  - simpl. destruct (Z.eq_dec tt T) as [->|Hne].
    + rewrite HT. exists [], s. auto.
    + rewrite Hc by lia.
      destruct (Hb tt s ltac:(lia) Hi) as (tr & s' & Hbody & Htr & Hi').
      destruct (IH (tt + 1) s') as (tr2 & s2 & Hl & Htr2 & Hi2); try lia; auto.
      { intros; apply Hc; lia. }
      { intros; apply Hb; auto; lia. }
      exists (tr ++ tr2), s2. rewrite (bind_ok _ _ _ _ Hbody), Hl. simpl.
      split; [reflexivity|]. split; [apply Forall_app_2|]; auto.
Qed.

(** A loop that runs well up to [T1], where the body does not return,
    does not return. *)
Lemma for_loop_stops (Q : result S -> Prop) T1 fuel tt s :
  (forall x, tt <= x <= T1 -> cond x = true) ->
  (forall x s, tt <= x < T1 -> Inv x s ->
     exists tr s', body x s = (tr, Ok s') /\ Forall P tr /\ Inv (x + 1) s') ->
  (forall s, Inv T1 s ->
     exists tr r, body T1 s = (tr, r) /\ Forall P tr /\ is_ok r = false /\ Q r) ->
  tt <= T1 -> T1 - tt < Z.of_nat fuel -> Inv tt s ->
  exists tr r, for_loop fuel cond body tt s = (tr, r) /\ Forall P tr /\
    is_ok r = false /\ Q r.
Proof.
  revert tt s. induction fuel as [|fuel IH]; intros tt s Hc Hb Hstop Hle Hf Hi; [lia|].
  simpl. rewrite Hc by lia. destruct (Z.eq_dec tt T1) as [->|Hne].
  - destruct (Hstop s Hi) as (tr & r & Hbody & Htr & Hr & HQ).
    exists tr, r. rewrite Hbody. destruct r; try discriminate; simpl; auto.
  - destruct (Hb tt s ltac:(lia) Hi) as (tr & s' & Hbody & Htr & Hi').
    destruct (IH (tt + 1) s') as (tr2 & r & Hl & Htr2 & Hr & HQ); try lia; auto.
    { intros; apply Hc; lia. }
    { intros; apply Hb; auto; lia. }
    exists (tr ++ tr2), r. rewrite (bind_ok _ _ _ _ Hbody), Hl. simpl.
    split; [reflexivity|]. split; [apply Forall_app_2|]; auto.
Qed.
End Loops.

Lemma seqZ_snoc n : 0 <= n -> seqZ 0 (n + 1) = seqZ 0 n ++ [n].
Proof. intros. rewrite seqZ_app by lia. reflexivity. Qed.

Lemma setup_spec A env T k :
  T <= MAX_THREADS ->
  exists tr, setup A env T k =
    (tr, Ok (attr_of env k <$> seqZ 0 T, assignment A T <$> seqZ 0 T)) /\
    Forall no_output tr.
Proof.
  intros HT. unfold setup.
  destruct (for_loop_upto (fun tt => tt <? T) (setup_body A env k T)
    (fun tt s => 0 <= tt /\ s = (attr_of env k <$> seqZ 0 tt, assignment A T <$> seqZ 0 tt))
    no_output (Z.max 0 T) 289 0 ([], [])) as (tr & s & Hl & Htr & _ & ->).
  - intros; lia.
  - lia.
  - intros x s Hx [_ ->]. unfold setup_body.
    assert ((MAX_THREADS <=? x) = false) as -> by (unfold MAX_THREADS in *; lia).
    eexists _, _. split; [reflexivity|]. simpl. split.
    + repeat constructor.
    + split; [lia|]. rewrite seqZ_snoc, !fmap_app by lia. reflexivity.
  - lia.
  - unfold MAX_THREADS in *. lia.
  - split; [lia|reflexivity].
  - exists tr. split; [|exact Htr]. rewrite Hl.
    destruct (Z.le_gt_cases 0 T).
    + rewrite Z.max_r by lia. reflexivity.
    + rewrite Z.max_l by lia. rewrite (seqZ_nil 0 T) by lia. reflexivity.
Qed.

Lemma setup_overflow A env T k :
  MAX_THREADS < T ->
  exists tr, setup A env T k = (tr, Fault) /\ Forall no_output tr.
Proof.
  intros HT. unfold setup.
  destruct (for_loop_stops (fun tt => tt <? T) (setup_body A env k T)
    (fun _ _ => True) no_output (fun r => r = Fault) 288 289 0 ([], []))
    as (tr & r & Hl & Htr & _ & ->); auto; try lia.
  - unfold MAX_THREADS in *. intros; lia.
  - intros x s Hx _. unfold setup_body.
    assert ((MAX_THREADS <=? x) = false) as -> by (unfold MAX_THREADS in *; lia).
    eexists _, _. split; [reflexivity|]. simpl. split; [repeat constructor|auto].
  - intros s _. exists [], Fault. unfold setup_body. simpl. repeat split; auto.
  - exists tr; auto.
Qed.

Lemma spawn_spec A env T k :
  T <= MAX_THREADS ->
  exists tr, spawn A env T k = (tr, Ok (spawned A env T k)) /\ Forall no_output tr.
Proof.
  intros HT. unfold spawn.
  destruct (setup_spec A env T k HT) as (tr1 & Hs & Htr1).
  rewrite (bind_ok _ _ _ _ Hs). cbn [fst snd].
  destruct (for_loop_upto (fun tt => tt <? T)
    (create_body env k (attr_of env k <$> seqZ 0 T) (assignment A T <$> seqZ 0 T))
    (fun tt s => 0 <= tt /\ s = thread_of A env T k <$> seqZ 0 tt)
    no_output (Z.max 0 T) 289 0 []) as (tr & s & Hl & Htr & _ & ->).
  - intros; lia.
  - lia.
  - intros x s Hx [_ ->]. unfold create_body.
    rewrite !list_lookup_fmap, lookup_seqZ_lt by lia. simpl.
    rewrite Z.add_0_l, Z2Nat.id by lia.
    eexists _, _. split; [reflexivity|]. simpl. split; [repeat constructor|].
    split; [lia|]. rewrite seqZ_snoc, fmap_app by lia. reflexivity.
  - lia.
  - unfold MAX_THREADS in *. lia.
  - split; [lia|reflexivity].
  - exists (tr1 ++ tr). rewrite Hl. simpl. split; [|apply Forall_app_2; auto].
    unfold spawned. destruct (Z.le_gt_cases 0 T).
    + rewrite Z.max_r by lia. reflexivity.
    + rewrite Z.max_l by lia. rewrite (seqZ_nil 0 T) by lia. reflexivity.
Qed.

Lemma stream_load a b p q j :
  _mm512_stream_ps b p (_mm512_load_ps a q) j =
  if (p <=? j) && (j <? p + 16) then a (q + (j - p)) else b j.
Proof.
  unfold _mm512_stream_ps, _mm512_load_ps.
  destruct ((p <=? j) && (j <? p + 16)) eqn:E; [|reflexivity].
  apply andb_true_iff in E as [E1 E2].
  remember (Z.to_nat (j - p)) as n eqn:Hn.
  assert (j - p = Z.of_nat n) as -> by lia.
  assert (n < 16)%nat as Hlt by lia. clear - Hlt.
  do 16 (destruct n as [|n]; [reflexivity|]). lia.
Qed.

Lemma mult16_next i S :
  i mod 16 = 0 -> S mod 16 = 0 -> i < S -> i + 16 <= S /\ (i + 16) mod 16 = 0.
Proof.
  intros Hi HS Hlt.
  apply Z.div_exact in Hi; [|lia]. apply Z.div_exact in HS; [|lia].
  split; [lia|].
  replace (i + 16) with (i + 1 * 16) by lia. rewrite Z.mod_add by lia.
  rewrite Hi at 1. rewrite Z.mul_comm. apply Z.mod_mul. lia.
Qed.

Lemma at_phase_Some p o :
  at_phase p o = true -> exists th, o = Some th /\ th_phase th = p.
Proof.
  destruct o as [th|]; [|discriminate]. simpl. intros H. exists th. split; [reflexivity|].
  destruct p, (th_phase th); try discriminate; try reflexivity.
  apply Z.eqb_eq in H. congruence.
Qed.

Lemma barrier_release_lookup count p next ths ths' w o :
  barrier_release count p next ths = Some ths' ->
  ths' !! w = Some o ->
  exists o0, ths !! w = Some o0 /\
    ((at_phase p o0 = false /\ o = o0) \/
     (exists th, o0 = Some th /\ th_phase th = p /\ o = Some (next w th))).
Proof.
  unfold barrier_release. destruct (_ =? _); [|discriminate].
  intros [= <-]. rewrite list_lookup_imap.
  destruct (ths !! w) as [o0|]; [|discriminate]. simpl. intros [= <-].
  exists o0. split; [reflexivity|].
  destruct (at_phase p o0) eqn:E; [right|left; auto].
  apply at_phase_Some in E as (th & -> & Hp). exists th. auto.
Qed.

Lemma barrier_release_length count p next ths ths' :
  barrier_release count p next ths = Some ths' -> length ths' = length ths.
Proof.
  unfold barrier_release. destruct (_ =? _); [|discriminate].
  intros [= <-]. apply length_imap.
Qed.

Section Invariant.
Context (A T : Z) (aff : Z -> option Z) (el : Z -> float) (a0 b0 : array).

Lemma thread_inv_mono b b' w th :
  thread_inv A T aff el a0 b w th ->
  (forall x, b' x = b x \/ b' x = a0 x) ->
  thread_inv A T aff el a0 b' w th.
Proof.
  unfold thread_inv. intros (Ha & Hb & Hs & Haf & Hp) Hbb.
  repeat split; auto.
  assert (forall x, b x = a0 x -> b' x = a0 x) as Hk
    by (intros x Hx; destruct (Hbb x); congruence).
  destruct (th_phase th); auto.
  - destruct Hp as (? & ? & ?). auto.
  - destruct Hp as (? & ?). auto.
Qed.

Lemma trial_inv_step count st st' :
  step count el st st' ->
  trial_inv A T aff el a0 b0 st -> trial_inv A T aff el a0 b0 st'.
Proof.
  intros Hstep (Ha & Hlen & Hth & Hb & Hlog).
  destruct Hstep as [st ths' Hrel | st w th th' b' ev Hw Hls | st ths' Hrel].
  - (* the first barrier opens *)
    split; [exact Ha|]. split.
    { simpl. rewrite (barrier_release_length _ _ _ _ _ Hrel). exact Hlen. }
    split; [|split; [exact Hb|exact Hlog]].
    intros w th Hw. simpl in Hw.
    destruct (barrier_release_lookup _ _ _ _ _ _ _ Hrel Hw)
      as (o0 & Ho0 & [[_ <-] | (th0 & -> & Hp & [= ->])]).
    + apply Hth; exact Ho0.
    + specialize (Hth _ _ Ho0). unfold thread_inv in *. simpl.
      destruct Hth as (? & ? & ? & ? & _). repeat split; auto; try lia.
      pose proof (chunk_size_range A T); lia.
  - (* one pass of the loop of worker w *)
    pose proof (Hth _ _ Hw) as Hinv.
    pose proof (chunk_size_range A T) as HS.
    pose proof (chunk_size_mod16 A T) as HS16.
    assert (Z.of_nat w < T) as HwT.
    { apply lookup_lt_Some in Hw. lia. }
    unfold copy_step in Hls. unfold thread_inv in Hinv.
    destruct Hinv as (Harg_a & Harg_b & Harg_s & Haff & Hp).
    destruct (th_phase th) as [|i| |] eqn:Hph; try discriminate.
    destruct Hp as (Hi & Hi16 & Hdone). rewrite Harg_s, Harg_a, Harg_b in Hls.
    destruct (i <? chunk_size A T) eqn:Hlt; injection Hls as <- <- <-.
    + apply Z.ltb_lt in Hlt.
      destruct (mult16_next _ _ Hi16 HS16 Hlt) as [Hnext Hnext16].
      assert (to_uint32 (i + 16) = i + 16) as Hu
        by (unfold to_uint32; apply Z.mod_small; lia).
      remember (chunk_start A T (Z.of_nat w)) as off eqn:Hoff.
      assert (forall x, _mm512_stream_ps (st_b st) (off + i) (_mm512_load_ps (st_a st) (off + i)) x =
                        if (off + i <=? x) && (x <? off + i + 16) then a0 x else st_b st x) as Hnew.
      { intros x. rewrite stream_load, Ha.
        destruct ((off + i <=? x) && (x <? off + i + 16)); [f_equal; lia|reflexivity]. }
      split; [exact Ha|]. split; [simpl; rewrite length_insert; exact Hlen|].
      split; [|split].
      * intros w' th'' Hw'. simpl in Hw'. simpl st_b.
        destruct (decide (w = w')) as [<-|Hne].
        -- rewrite list_lookup_insert_eq in Hw' by (eapply lookup_lt_Some; eauto).
           injection Hw' as <-. unfold thread_inv. simpl. rewrite Hu, <- Hoff.
           repeat split; auto; try lia.
           intros m Hm. rewrite Hnew.
           destruct ((off + i <=? off + m) && (off + m <? off + i + 16)) eqn:E;
             [reflexivity|]. apply Hdone.
           apply andb_false_iff in E. lia.
        -- rewrite list_lookup_insert_ne in Hw' by exact Hne.
           eapply thread_inv_mono; [apply Hth; exact Hw'|].
           intros x. rewrite Hnew. destruct (_ && _); auto.
      * intros j. simpl. rewrite Hnew.
        destruct ((off + i <=? j) && (j <? off + i + 16)) eqn:E; [|apply Hb].
        right. split; [reflexivity|]. exists (Z.of_nat w).
        apply andb_true_iff in E. rewrite <- Hoff. lia.
      * simpl. apply Forall_app_2; [exact Hlog|].
        repeat constructor; simpl; try lia; exists i; rewrite <- Hoff; repeat split; auto; lia.
    + apply Z.ltb_ge in Hlt. assert (i = chunk_size A T) as -> by lia.
      split; [exact Ha|]. split; [simpl; rewrite length_insert; exact Hlen|].
      split; [|split; [exact Hb|simpl; rewrite app_nil_r; exact Hlog]].
      intros w' th'' Hw'. simpl in Hw'. simpl st_b.
      destruct (decide (w = w')) as [<-|Hne].
      * rewrite list_lookup_insert_eq in Hw' by (eapply lookup_lt_Some; eauto).
        injection Hw' as <-. unfold thread_inv. simpl. repeat split; auto.
      * rewrite list_lookup_insert_ne in Hw' by exact Hne. apply Hth; exact Hw'.
  - (* the second barrier opens *)
    split; [exact Ha|]. split.
    { simpl. rewrite (barrier_release_length _ _ _ _ _ Hrel). exact Hlen. }
    split; [|split; [exact Hb|exact Hlog]].
    intros w th Hw. simpl in Hw.
    destruct (barrier_release_lookup _ _ _ _ _ _ _ Hrel Hw)
      as (o0 & Ho0 & [[_ <-] | (th0 & -> & Hp & [= ->])]).
    + apply Hth; exact Ho0.
    + specialize (Hth _ _ Ho0). unfold thread_inv in *. simpl.
      destruct Hth as (? & ? & ? & ? & Hd). rewrite Hp in Hd. repeat split; auto.
Qed.

Lemma trial_inv_steps count st st' :
  rtc (step count el) st st' ->
  trial_inv A T aff el a0 b0 st -> trial_inv A T aff el a0 b0 st'.
Proof. induction 1; eauto using trial_inv_step. Qed.
End Invariant.

Lemma trial_inv_init A env T k a b :
  trial_inv A T (attr_of env k) (elapsed env k) a b (trial_init a b (spawned A env T k)).
Proof.
  unfold trial_inv, trial_init, spawned. simpl.
  split; [reflexivity|]. split; [rewrite length_fmap, length_seqZ; lia|].
  split; [|split; [auto|constructor]].
  intros w th. rewrite list_lookup_fmap.
  destruct (seqZ 0 T !! w) as [tt|] eqn:E; [|discriminate].
  apply lookup_seqZ in E as [-> _]. simpl. unfold thread_of.
  destruct (create_ok env k _); [|discriminate]. intros [= <-].
  unfold thread_inv. simpl. rewrite Z.add_0_l. auto.
Qed.

(** ** The sequential schedule is an execution *)

Lemma copy_loop_steps count el fuel w st :
  rtc (step count el) st (copy_loop fuel w st).
Proof.
  revert st. induction fuel as [|fuel IH]; intros st; simpl; [reflexivity|].
  destruct (st_threads st !! w) as [[th|]|] eqn:Hw; try reflexivity.
  destruct (copy_step w th (st_a st) (st_b st)) as [[[th' b'] ev]|] eqn:Hl;
    [|reflexivity].
  eapply rtc_l; [eapply step_loop; eauto|apply IH].
Qed.

Lemma run_threads_steps count el ws st :
  rtc (step count el) st
    (fold_left (fun s w => copy_loop (thread_fuel s w) w s) ws st).
Proof.
  revert st. induction ws as [|w ws IH]; intros st; simpl; [reflexivity|].
  etrans; [apply copy_loop_steps|apply IH].
Qed.

Lemma open_barrier1_steps count el st :
  rtc (step count el) st (open_barrier count Barrier1 start_loop st).
Proof.
  unfold open_barrier.
  destruct (barrier_release count Barrier1 start_loop (st_threads st)) eqn:E;
    [apply rtc_once, step_start, E|reflexivity].
Qed.

Lemma open_barrier2_steps count el st :
  rtc (step count el) st (open_barrier count Barrier2 (finish el) st).
Proof.
  unfold open_barrier.
  destruct (barrier_release count Barrier2 (finish el) (st_threads st)) eqn:E;
    [apply rtc_once, step_finish, E|reflexivity].
Qed.

Lemma run_trial_steps count el st :
  rtc (step count el) st (run_trial count el st).
Proof.
  unfold run_trial.
  etrans; [apply open_barrier1_steps|].
  etrans; [apply run_threads_steps|]. apply open_barrier2_steps.
Qed.

(** ** ... and it ends with every thread past its exit *)

Lemma waiting_le p ths : (waiting p ths <= length ths)%nat.
Proof. induction ths as [|o ths IH]; simpl; [lia|]. destruct (at_phase p o); lia. Qed.

Lemma waiting_all p ths :
  (forall w o, ths !! w = Some o -> at_phase p o = true) ->
  waiting p ths = length ths.
Proof.
  induction ths as [|o ths IH]; intros H; simpl; [reflexivity|].
  rewrite (H O o eq_refl), IH; [reflexivity|].
  intros w o' Hw. apply (H (S w) o' Hw).
Qed.

Lemma waiting_lt p ths w o :
  ths !! w = Some o -> at_phase p o = false -> (waiting p ths < length ths)%nat.
Proof.
  revert w. induction ths as [|o' ths IH]; intros w Hw Hp; [discriminate|].
  simpl. destruct w as [|w]; simpl in Hw.
  - injection Hw as ->. rewrite Hp. pose proof (waiting_le p ths). lia.
  - specialize (IH w Hw Hp). destruct (at_phase p o'); lia.
Qed.

Lemma at_phase_intro p th : (forall i, p <> Loop i) -> th_phase th = p -> at_phase p (Some th) = true.
Proof.
  intros Hp <-. simpl. destruct (th_phase th); try reflexivity. exfalso; eapply Hp; eauto.
Qed.

(** A worker in its loop leaves it within [size/16 + 1] passes. *)
Lemma copy_loop_done fuel : forall st w th i,
  st_threads st !! w = Some (Some th) ->
  th_phase th = Loop i ->
  0 <= i <= arg_size (th_arg th) -> i mod 16 = 0 ->
  arg_size (th_arg th) mod 16 = 0 -> arg_size (th_arg th) <= 2 ^ 32 - 16 ->
  (arg_size (th_arg th) - i) / 16 < Z.of_nat fuel ->
  st_threads (copy_loop fuel w st) =
    <[w := Some (set_phase Barrier2 th)]> (st_threads st).
Proof.
  induction fuel as [|fuel IH]; intros st w th i Hw Hp Hi Hi16 HS16 HS Hf.
  { assert (0 <= (arg_size (th_arg th) - i) / 16) by (apply Z.div_pos; lia). lia. }
  simpl. rewrite Hw. unfold copy_step. rewrite Hp.
  destruct (i <? arg_size (th_arg th)) eqn:Hlt.
  - apply Z.ltb_lt in Hlt.
    destruct (mult16_next _ _ Hi16 HS16 Hlt) as [Hn Hn16].
    assert (to_uint32 (i + 16) = i + 16) as Hu
      by (unfold to_uint32; apply Z.mod_small; lia).
    rewrite Hu.
    erewrite IH with (th := set_phase (Loop (i + 16)) th) (i := i + 16); simpl; auto.
    + rewrite list_insert_insert_eq. reflexivity.
    + apply list_lookup_insert_eq. eapply lookup_lt_Some; eauto.
    + lia.
    + replace (arg_size (th_arg th) - (i + 16)) with (arg_size (th_arg th) - i + (-1) * 16) by lia.
      rewrite Z.div_add by lia. lia.
  - destruct fuel; simpl; [reflexivity|].
    rewrite list_lookup_insert_eq by (eapply lookup_lt_Some; eauto).
    reflexivity.
Qed.

Lemma copy_loop_idle fuel w st :
  (forall th i, st_threads st !! w = Some (Some th) -> th_phase th <> Loop i) ->
  copy_loop fuel w st = st.
Proof.
  intros H. destruct fuel; simpl; [reflexivity|].
  destruct (st_threads st !! w) as [[th|]|] eqn:Hw; try reflexivity.
  unfold copy_step. destruct (th_phase th) eqn:Hp; try reflexivity.
  exfalso. eapply H; eauto.
Qed.

Lemma run_threads_done S m : forall n st,
  S mod 16 = 0 -> 0 <= S <= 2 ^ 32 - 16 ->
  halfway S n (st_threads st) ->
  length (st_threads st) = (n + m)%nat ->
  let st' := fold_left (fun s w => copy_loop (thread_fuel s w) w s) (seq n m) st in
  halfway S (n + m) (st_threads st') /\ length (st_threads st') = (n + m)%nat.
Proof.
  induction m as [|m IH]; intros n st HS16 HS Hh Hlen; simpl.
  { rewrite Nat.add_0_r in *. auto. }
  destruct (lookup_lt_is_Some_2 (st_threads st) n ltac:(lia)) as [o Ho].
  destruct (Hh _ _ Ho) as (th & -> & Hsz & Hp).
  rewrite Nat.ltb_irrefl in Hp.
  assert (st_threads (copy_loop (thread_fuel st n) n st) =
          <[n := Some (set_phase Barrier2 th)]> (st_threads st)) as Hrun.
  { eapply copy_loop_done; eauto; rewrite ?Hsz; try lia.
    all: try reflexivity. all: try assumption.
    unfold thread_fuel. rewrite Ho, Hsz, Z.sub_0_r.
    assert (0 <= S / 16) by (apply Z.div_pos; lia). lia. }
  replace (n + Datatypes.S m)%nat with (Datatypes.S n + m)%nat by lia.
  apply IH; auto.
  - rewrite Hrun. intros w o Hw.
    destruct (decide (n = w)) as [<-|Hne].
    + rewrite list_lookup_insert_eq in Hw by lia. injection Hw as <-.
      eexists; split; [reflexivity|]. simpl. split; [exact Hsz|].
      rewrite (proj2 (Nat.ltb_lt _ _)) by lia. reflexivity.
    + rewrite list_lookup_insert_ne in Hw by exact Hne.
      destruct (Hh _ _ Hw) as (th' & -> & Hsz' & Hp').
      eexists; split; [reflexivity|]. split; [exact Hsz'|].
      rewrite Hp'. destruct (w <? n)%nat eqn:E1.
      * apply Nat.ltb_lt in E1. rewrite (proj2 (Nat.ltb_lt _ _)) by lia. reflexivity.
      * apply Nat.ltb_ge in E1. rewrite (proj2 (Nat.ltb_ge _ _)) by lia. reflexivity.
  - rewrite Hrun, length_insert. lia.
Qed.

Lemma spawned_lookup A env T k w o :
  spawned A env T k !! w = Some o ->
  Z.of_nat w < T /\ o = thread_of A env T k (Z.of_nat w).
Proof.
  unfold spawned. rewrite list_lookup_fmap.
  destruct (seqZ 0 T !! w) as [tt0|] eqn:E; [|discriminate].
  apply lookup_seqZ in E as [-> ?]. simpl. intros [= <-]. rewrite Z.add_0_l. auto.
Qed.

Lemma spawned_length A env T k : length (spawned A env T k) = Z.to_nat T.
Proof. unfold spawned. rewrite length_fmap. apply length_seqZ. Qed.

Lemma barrier_count_small T : 0 <= T <= MAX_THREADS -> barrier_count T = T.
Proof. unfold barrier_count, to_uint32, MAX_THREADS. intros. apply Z.mod_small. lia. Qed.

Theorem run_trial_exits A env T k a b :
  0 <= T <= MAX_THREADS ->
  (forall tt0, 0 <= tt0 < T -> create_ok env k tt0 = true) ->
  let st' := run_trial (barrier_count T) (elapsed env k)
               (trial_init a b (spawned A env T k)) in
  all_exited st' /\ length (st_threads st') = Z.to_nat T.
Proof.
  intros HT Hc. rewrite barrier_count_small by exact HT.
  set (st0 := trial_init a b (spawned A env T k)).
  pose proof (chunk_size_range A T) as HS.
  pose proof (chunk_size_mod16 A T) as HS16.
  (* the first barrier opens *)
  assert (forall w o, st_threads st0 !! w = Some o ->
            exists th, o = Some th /\ arg_size (th_arg th) = chunk_size A T /\
                       th_phase th = Barrier1) as H0.
  { intros w o Hw. apply spawned_lookup in Hw as [Hlt ->].
    unfold thread_of. rewrite Hc by lia. eexists; split; [reflexivity|]. auto. }
  set (st1 := open_barrier T Barrier1 start_loop st0).
  assert (st_threads st1 =
          imap (fun w o => if at_phase Barrier1 o then start_loop w <$> o else o)
            (st_threads st0)) as Hst1.
  { unfold st1, open_barrier, barrier_release. rewrite waiting_all.
    - simpl. rewrite spawned_length, Z2Nat.id, Z.eqb_refl by lia. reflexivity.
    - intros w o Hw. destruct (H0 _ _ Hw) as (th & -> & _ & Hp).
      apply at_phase_intro; [discriminate|exact Hp]. }
  assert (halfway (chunk_size A T) 0 (st_threads st1)) as Hh1.
  { intros w o Hw. rewrite Hst1, list_lookup_imap in Hw.
    destruct (st_threads st0 !! w) as [o0|] eqn:E0; [|discriminate].
    destruct (H0 _ _ E0) as (th & -> & Hsz & Hp). simpl in Hw.
    rewrite Hp in Hw. injection Hw as <-.
    eexists; split; [reflexivity|]. simpl. auto. }
  assert (length (st_threads st1) = Z.to_nat T) as Hl1.
  { rewrite Hst1, length_imap. apply spawned_length. }
  destruct (run_threads_done (chunk_size A T) (Z.to_nat T) 0 st1 HS16 HS Hh1 Hl1)
    as [Hh2 Hl2].
  simpl Nat.add in *.
  unfold run_trial. fold st1. rewrite Hl1.
  set (st2 := fold_left _ _ st1) in *.
  (* the second barrier opens *)
  assert (forall w o, st_threads st2 !! w = Some o ->
            exists th, o = Some th /\ th_phase th = Barrier2) as H2.
  { intros w o Hw. destruct (Hh2 _ _ Hw) as (th & -> & _ & Hp).
    rewrite (proj2 (Nat.ltb_lt _ _)) in Hp by (apply lookup_lt_Some in Hw; lia).
    eauto. }
  unfold open_barrier, barrier_release. rewrite waiting_all.
  - rewrite Hl2, Z2Nat.id, Z.eqb_refl by lia. simpl. split.
    + intros w o Hw. simpl in Hw. rewrite list_lookup_imap in Hw.
      destruct (st_threads st2 !! w) as [o0|] eqn:E0; [|discriminate].
      destruct (H2 _ _ E0) as (th & -> & Hp).
      simpl in Hw. rewrite Hp in Hw. injection Hw as <-.
      eexists; split; [reflexivity|]. reflexivity.
    + rewrite length_imap. exact Hl2.
  - intros w o Hw. destruct (H2 _ _ Hw) as (th & -> & Hp).
    apply at_phase_intro; [discriminate|exact Hp].
Qed.


(** ** Nothing but the last statement of [main] writes to standard output *)

Lemma quiet_ret {A} (x : A) : quiet (ret x).
Proof. constructor. Qed.
Lemma quiet_fault {A} : quiet (@fault A).
Proof. constructor. Qed.
Lemma quiet_blocked {A} : quiet (@blocked A).
Proof. constructor. Qed.

Lemma quiet_bind {A B} (m : M A) (f : A -> M B) :
  quiet m -> (forall x, quiet (f x)) -> quiet (bind m f).
Proof.
  unfold quiet. destruct m as [tr [x| |]]; simpl; intros Hm Hf; auto.
  specialize (Hf x). destruct (f x) as [tr' r]. simpl in *. apply Forall_app_2; auto.
Qed.

Lemma quiet_emit e : no_output e -> quiet (emit e).
Proof. intros H. repeat constructor. exact H. Qed.

Lemma quiet_for_loop {S} cond (body : Z -> S -> M S) fuel :
  (forall x s, quiet (body x s)) -> forall tt0 s, quiet (for_loop fuel cond body tt0 s).
Proof.
  intros Hb. induction fuel as [|fuel IH]; intros tt0 s; simpl;
    destruct (cond tt0); try apply quiet_ret; try apply quiet_fault.
  apply quiet_bind; auto.
Qed.

Lemma quiet_setup A env T k : quiet (setup A env T k).
Proof.
  apply quiet_for_loop. intros x s. unfold setup_body.
  destruct (MAX_THREADS <=? x); [apply quiet_fault|].
  apply quiet_bind; [apply quiet_emit; exact I|intros; apply quiet_ret].
Qed.

Lemma quiet_spawn A env T k : quiet (spawn A env T k).
Proof.
  apply quiet_bind; [apply quiet_setup|]. intros s.
  apply quiet_for_loop. intros x ths. unfold create_body.
  destruct (_ !! _); [|apply quiet_fault]. destruct (_ !! _); [|apply quiet_fault].
  apply quiet_bind; [apply quiet_emit; exact I|intros; apply quiet_ret].
Qed.

Lemma quiet_join k ths x acc : quiet (join_body k ths x acc).
Proof.
  unfold join_body. destruct (MAX_THREADS <=? x); [apply quiet_fault|].
  destruct (ths !! Z.to_nat x) as [[th|]|]; try apply quiet_fault.
  destruct (th_phase th); try apply quiet_blocked.
  destruct (arg_time (th_arg th)); [|apply quiet_fault].
  apply quiet_bind; [apply quiet_emit; exact I|intros; apply quiet_ret].
Qed.

Lemma quiet_trial A env T k m : quiet (trial A env T k m).
Proof.
  apply quiet_bind; [apply quiet_spawn|]. intros ths.
  apply quiet_bind.
  { destruct (st_log _); [apply quiet_ret|].
    destruct (_ && _); [apply quiet_ret|apply quiet_fault]. }
  intros _. apply quiet_bind; [|intros; apply quiet_ret].
  apply quiet_for_loop. intros; apply quiet_join.
Qed.

Lemma quiet_run_trials A n env T m : quiet (run_trials A n env T m).
Proof.
  apply quiet_for_loop. intros k s. unfold trials_body.
  apply quiet_bind; [apply quiet_trial|intros; apply quiet_ret].
Qed.


(** ** One trial *)

Lemma fold_left_snoc {A B} (f : A -> B -> A) l x a :
  fold_left f (l ++ [x]) a = f (fold_left f l a) x.
Proof. rewrite fold_left_app. reflexivity. Qed.

(** After the trial, the join loop adds up the slots of the workers. *)
Lemma join_loop_spec A T aff el a0 b0 st k :
  0 <= T <= MAX_THREADS ->
  trial_inv A T aff el a0 b0 st -> all_exited st ->
  exists tr,
    for_loop 289 (fun x => negb (x =? T)) (join_body k (st_threads st)) 0 0%float =
      (tr, Ok (fold_left PrimFloat.add (el <$> seqZ 0 T) 0%float)) /\
    Forall no_output tr.
Proof.
  intros HT (_ & Hlen & Hth & _) Hex.
  destruct (for_loop_upto (fun x => negb (x =? T)) (join_body k (st_threads st))
    (fun x acc => 0 <= x /\ acc = fold_left PrimFloat.add (el <$> seqZ 0 x) 0%float)
    no_output T 289 0 0%float) as (tr & s & Hl & Htr & _ & ->).
  - intros x Hx. destruct (Z.eqb_spec x T); [lia|reflexivity].
  - rewrite Z.eqb_refl. reflexivity.
  - intros x acc Hx [_ ->]. unfold join_body.
    assert ((MAX_THREADS <=? x) = false) as -> by (unfold MAX_THREADS in *; lia).
    destruct (lookup_lt_is_Some_2 (st_threads st) (Z.to_nat x) ltac:(lia)) as [o Ho].
    destruct (Hex _ _ Ho) as (th & -> & Hp).
    destruct (Hth _ _ Ho) as (_ & _ & _ & _ & Hph). rewrite Hp in Hph.
    destruct Hph as [_ Ht]. rewrite Ho, Hp, Ht, Z2Nat.id by lia.
    eexists _, _. split; [reflexivity|]. simpl. split; [repeat constructor|].
    split; [lia|]. rewrite seqZ_snoc, fmap_app, fold_left_app by lia. reflexivity.
  - lia.
  - unfold MAX_THREADS in *. lia.
  - split; [lia|reflexivity].
  - exists tr. auto.
Qed.

(** A trial in which every thread is created returns, and what it stores
    into [times[0][k]] is the mean of the slots. *)
Theorem trial_returns A env T k m :
  0 <= T <= MAX_THREADS ->
  (forall x, 0 <= x < T -> create_ok env k x = true) ->
  a_ok m = true -> b_ok m = true ->
  exists tr m',
    trial A env T k m = (tr, Ok (m', trial_mean env T k)) /\
    a_ok m' = true /\ b_ok m' = true /\ c_ok m' = c_ok m /\
    arr_a m' = arr_a m /\
    arr_b m' = st_b (run_trial (barrier_count T) (elapsed env k)
                       (trial_init (arr_a m) (arr_b m) (spawned A env T k))).
Proof.
  intros HT Hc Ha Hb. unfold trial.
  destruct (spawn_spec A env T k ltac:(lia)) as (tr1 & Hsp & _).
  rewrite (bind_ok _ _ _ _ Hsp). cbn [fst snd].
  set (st := run_trial _ _ _).
  destruct (run_trial_exits A env T k (arr_a m) (arr_b m) HT Hc) as [Hex Hlen].
  fold st in Hex, Hlen.
  assert (trial_inv A T (attr_of env k) (elapsed env k) (arr_a m) (arr_b m) st) as Hinv.
  { eapply trial_inv_steps; [apply run_trial_steps|apply trial_inv_init]. }
  destruct (join_loop_spec _ _ _ _ _ _ _ k HT Hinv Hex) as (tr2 & Hj & _).
  assert ((match st_log st with
           | [] => ret ()
           | _ :: _ => if a_ok m && b_ok m then ret () else fault
           end) = ret ()) as ->.
  { rewrite Ha, Hb. destruct (st_log st); reflexivity. }
  rewrite (bind_ok _ _ _ _ Hj). cbn [bind ret fst snd].
  assert (trial_mean env T k =
          (fold_left PrimFloat.add (elapsed env k <$> seqZ 0 T) 0 / double_of_Z T)%float) as ->.
  { unfold trial_mean, mean_of. rewrite length_fmap, length_seqZ, Z2Nat.id by lia. reflexivity. }
  eexists _, _. split; [reflexivity|].
  destruct Hinv as (Hsa & _). cbn. repeat split; auto.
Qed.

Lemma for_loop_unfold {S} fuel cond (body : Z -> S -> M S) x s :
  for_loop (Datatypes.S fuel) cond body x s =
  if cond x then bind (body x s) (fun s' => for_loop fuel cond body (x + 1) s')
  else ret s.
Proof. reflexivity. Qed.

Lemma bind_fault {A B} (m : M A) (f : A -> M B) :
  m.2 = Fault -> (bind m f).2 = Fault.
Proof. destruct m as [tr [x| |]]; simpl; intros; try discriminate; reflexivity. Qed.

Lemma bind_blocked {A B} (m : M A) (f : A -> M B) :
  m.2 = Blocked -> (bind m f).2 = Blocked.
Proof. destruct m as [tr [x| |]]; simpl; intros; try discriminate; reflexivity. Qed.

Lemma bind_ok_snd {A B} (m : M A) (f : A -> M B) tr x :
  m = (tr, Ok x) -> (bind m f).2 = (f x).2.
Proof. intros H. rewrite (bind_ok _ _ _ _ H). reflexivity. Qed.

(** ** Trials that do not return *)


(** A negative thread count: no thread is created, and the join loop,
    whose test is [tt != threads], joins [tid[0]]. *)
Theorem trial_negative A env T k m :
  T < 0 -> (trial A env T k m).2 = Fault.
Proof.
  intros HT. unfold trial.
  destruct (spawn_spec A env T k ltac:(unfold MAX_THREADS; lia)) as (tr1 & Hsp & _).
  rewrite (bind_ok_snd _ _ _ _ Hsp).
  assert (spawned A env T k = []) as -> by (unfold spawned; rewrite seqZ_nil by lia; reflexivity).
  assert (forall count el a b, run_trial count el (trial_init a b []) = trial_init a b []) as ->.
  { intros. unfold run_trial, open_barrier, barrier_release. simpl.
    destruct count; reflexivity. }
  cbn [trial_init st_log st_threads]. rewrite (bind_ok_snd _ _ [] tt eq_refl).
  change 289%nat with (Datatypes.S 288). rewrite for_loop_unfold.
  destruct (Z.eqb_spec 0 T); [lia|]. reflexivity.
Qed.

(** More than 288 threads: the set-up loop runs past the end of [attr]
    and [info]. *)
Theorem trial_overflow A env T k m :
  MAX_THREADS < T -> (trial A env T k m).2 = Fault.
Proof.
  intros HT. unfold trial, spawn.
  destruct (setup_overflow A env T k HT) as (tr & Hs & _).
  apply bind_fault, bind_fault. rewrite Hs. reflexivity.
Qed.

(** ** All trials *)

Lemma NTIMES_ge_2 n : 2 <= NTIMES n.
Proof. unfold NTIMES. destruct n as [n|]; [|lia]. destruct (Z.leb_spec n 1); lia. Qed.

Theorem run_trials_returns A n env T m :
  0 <= T <= MAX_THREADS ->
  (forall k x, 0 <= k < NTIMES n -> 0 <= x < T -> create_ok env k x = true) ->
  a_ok m = true -> b_ok m = true ->
  exists tr m',
    run_trials A n env T m = (tr, Ok (m', trial_means n env T)) /\
    a_ok m' = true /\ b_ok m' = true /\ c_ok m' = c_ok m.
Proof.
  intros HT Hc Ha Hb. unfold run_trials.
  pose proof (NTIMES_ge_2 n) as HN.
  destruct (for_loop_upto (fun k => k <? NTIMES n) (trials_body A env T)
    (fun k s => 0 <= k /\ a_ok s.1 = true /\ b_ok s.1 = true /\ c_ok s.1 = c_ok m /\
                s.2 = trial_mean env T <$> seqZ 0 k)
    no_output (NTIMES n) (Z.to_nat (NTIMES n)) 0 (m, []))
    as (tr & [m' ts] & Hl & _ & _ & Ha' & Hb' & Hc' & Hts).
  - intros; lia.
  - lia.
  - intros k [mk ts] Hk (_ & Hak & Hbk & Hck & Hts). simpl in *. subst ts.
    unfold trials_body.
    destruct (trial_returns A env T k mk HT (fun x Hx => Hc k x Hk Hx) Hak Hbk)
      as (tr & m' & Ht & Ha' & Hb' & Hc' & _).
    rewrite (bind_ok _ _ _ _ Ht). cbn [fst snd ret].
    eexists _, _. split; [reflexivity|].
    split.
    + pose proof (quiet_trial A env T k mk) as Hq. unfold quiet in Hq.
      rewrite Ht in Hq. rewrite app_nil_r. exact Hq.
    + simpl. repeat split; auto; try lia; try congruence.
      rewrite seqZ_snoc, fmap_app by lia. reflexivity.
  - lia.
  - lia.
  - simpl. repeat split; auto; lia.
  - simpl in *. subst ts. exists tr, m'. auto.
Qed.


Theorem run_trials_first_fault A n env T m :
  (forall m, (trial A env T 0 m).2 = Fault) ->
  (run_trials A n env T m).2 = Fault.
Proof.
  intros Hf. unfold run_trials. pose proof (NTIMES_ge_2 n) as HN.
  destruct (Z.to_nat (NTIMES n)) as [|fuel] eqn:E; [lia|].
  rewrite for_loop_unfold. destruct (Z.ltb_spec 0 (NTIMES n)); [|lia].
  apply bind_fault. unfold trials_body. apply bind_fault, Hf.
Qed.

(** ** [main] *)

Lemma main_unfold A n env :
  main A n env =
  (alloc_events env ++ (main_after_alloc A n env (allocated env)).1,
   (main_after_alloc A n env (allocated env)).2).
Proof.
  unfold main, posix_memalign, allocated, alloc_events. cbn [bind emit ret app].
  destruct (main_after_alloc A n env _) as [tr r]. reflexivity.
Qed.

Lemma stdout_alloc env : stdout (alloc_events env) = [].
Proof. reflexivity. Qed.

Lemma init_arrays_ok A m :
  a_ok m = true -> b_ok m = true ->
  exists m', init_arrays A m = ([], Ok m') /\ a_ok m' = true /\ b_ok m' = true /\
    c_ok m' = c_ok m.
Proof.
  intros Ha Hb. unfold init_arrays. rewrite Ha, Hb. simpl.
  destruct (0 <? A); eexists; (split; [reflexivity|]); simpl; auto.
Qed.


Lemma init_arrays_quiet A m : (init_arrays A m).1 = [].
Proof.
  unfold init_arrays. destruct (0 <? A); [|reflexivity].
  destruct (_ && _); reflexivity.
Qed.

(** Either nothing is printed, or everything before the [printf]
    returned and exactly one line is printed. *)
Lemma main_after_alloc_cases A n env m0 :
  let r := main_after_alloc A n env m0 in
  (stdout r.1 = [] /\ is_ok r.2 = false) \/
  (exists m tr1 m1 times,
     init_arrays A m0 = ([], Ok m) /\
     run_trials A n env (thread_count env) m = (tr1, Ok (m1, times)) /\
     r.2 = Ok 0 /\
     stdout r.1 = [(thread_count env, bandwidth A (summary n times))]).
Proof.
  unfold main_after_alloc.
  pose proof (init_arrays_quiet A m0) as Hq.
  destruct (init_arrays A m0) as [tr0 [m| |]] eqn:Hi; simpl in Hq; subst tr0;
    try (left; split; reflexivity).
  cbn [bind].
  pose proof (quiet_run_trials A n env (thread_count env) m) as Hrq.
  destruct (run_trials A n env (thread_count env) m) as [tr1 [[m1 times]| |]] eqn:Hr;
    unfold quiet in Hrq; cbn [fst] in Hrq; apply stdout_quiet in Hrq.
  - right. exists m, tr1, m1, times. repeat split; auto.
    cbn. rewrite stdout_app, Hrq. reflexivity.
  - left. cbn. auto.
  - left. cbn. auto.
Qed.

Theorem main_returns A n env :
  memalign_ok env ArrA = true -> memalign_ok env ArrB = true ->
  0 <= thread_count env <= MAX_THREADS ->
  (forall k x, 0 <= k < NTIMES n -> 0 <= x < thread_count env ->
     create_ok env k x = true) ->
  (main A n env).2 = Ok 0 /\
  stdout (main A n env).1 =
    [(thread_count env, bandwidth A (summary n (trial_means n env (thread_count env))))].
Proof.
  intros Ha Hb HT Hc. rewrite main_unfold. cbn [fst snd].
  rewrite stdout_app, stdout_alloc. cbn [app].
  destruct (init_arrays_ok A (allocated env) Ha Hb) as (m & Hi & Ha' & Hb' & _).
  destruct (run_trials_returns A n env _ m HT Hc Ha' Hb') as (tr & m' & Hr & _).
  destruct (main_after_alloc_cases A n env (allocated env))
    as [[_ Hno] | (m2 & tr1 & m1 & times & Hi2 & Hr2 & Hok & Hout)].
  - exfalso. unfold main_after_alloc in Hno.
    rewrite (bind_ok_snd _ _ _ _ Hi), (bind_ok_snd _ _ _ _ Hr) in Hno. discriminate.
  - rewrite Hi in Hi2. injection Hi2 as <-. rewrite Hr in Hr2.
    injection Hr2 as <- <- <-. auto.
Qed.

(** Whatever the run does, it starts with the three allocations. *)
Theorem main_allocates_first A n env :
  exists tr, (main A n env).1 = alloc_events env ++ tr.
Proof. rewrite main_unfold. eexists. reflexivity. Qed.



Lemma main_after_alloc_fault A n env m0 :
  (forall m, (run_trials A n env (thread_count env) m).2 = Fault) ->
  (main_after_alloc A n env m0).2 = Fault.
Proof.
  intros Hf. unfold main_after_alloc.
  destruct (init_arrays A m0) as [tr0 [m| |]] eqn:Hi; try reflexivity.
  2: { unfold init_arrays in Hi. destruct (0 <? A); [|discriminate].
       destruct (_ && _); discriminate. }
  cbn [bind]. specialize (Hf m).
  destruct (run_trials A n env (thread_count env) m) as [tr1 [[m1 times]| |]];
    simpl in Hf; try discriminate. reflexivity.
Qed.

(** The loops return only what they were given or built. *)
Lemma for_loop_partial {S} (Inv : Z -> S -> Prop) cond (body : Z -> S -> M S) fuel :
  (forall x s tr s', cond x = true -> body x s = (tr, Ok s') -> Inv x s -> Inv (x + 1) s') ->
  forall x s tr s', Inv x s -> for_loop fuel cond body x s = (tr, Ok s') ->
  exists x', Inv x' s' /\ cond x' = false.
Proof.
  intros Hb. induction fuel as [|fuel IH]; intros x s tr s' Hi; simpl;
    destruct (cond x) eqn:Hc; try discriminate.
  - intros [= <- <-]. eauto.
  - destruct (body x s) as [tr1 [s1| |]] eqn:Hbody; simpl; try discriminate.
    destruct (for_loop fuel cond body (x + 1) s1) as [tr2 r2] eqn:Hl.
    intros [= <- ->]. eapply IH; [|exact Hl]. eapply Hb; eauto.
  - intros [= <- <-]. eauto.
Qed.


(** ** The order on [double] *)

Ltac cmp_cases :=
  repeat match goal with
  | |- context [Z.compare ?a ?b] => destruct (Z.compare_spec a b); subst
  | |- context [Pos.compare_cont Eq ?a ?b] =>
      change (Pos.compare_cont Eq a b) with (Pos.compare a b);
      destruct (Pos.compare_spec a b); subst
  | H : context [Z.compare ?a ?b] |- _ => destruct (Z.compare_spec a b); subst
  | H : context [Pos.compare_cont Eq ?a ?b] |- _ =>
      change (Pos.compare_cont Eq a b) with (Pos.compare a b) in H;
      destruct (Pos.compare_spec a b); subst
  end; simpl in *; try discriminate; try reflexivity; try lia.

Lemma SFleb_trans a b c :
  SFleb a b = true -> SFleb b c = true -> SFleb a c = true.
Proof.
  unfold SFleb, SFcompare.
  destruct a as [[]|[]| |[] ma ea], b as [[]|[]| |[] mb eb], c as [[]|[]| |[] mc ec];
    simpl; intros H1 H2; try discriminate; try reflexivity; cmp_cases.
Qed.

Lemma SFltb_leb a b : SFltb a b = true -> SFleb a b = true.
Proof.
  unfold SFltb, SFleb. destruct (SFcompare a b) as [[]|]; auto.
Qed.

Lemma SFleb_total a b :
  SFleb a a = true -> SFleb b b = true -> SFltb a b = false -> SFleb b a = true.
Proof.
  unfold SFleb, SFltb, SFcompare.
  destruct a as [[]|[]| |[] ma ea], b as [[]|[]| |[] mb eb];
    simpl; intros H1 H2 H3; try discriminate; try reflexivity; cmp_cases.
Qed.

Lemma SFleb_number_l a b : SFleb a b = true -> SFleb a a = true.
Proof.
  unfold SFleb, SFcompare.
  destruct a as [[]|[]| |[] ma ea], b as [[]|[]| |[] mb eb];
    simpl; intros H1; try discriminate; try reflexivity;
    rewrite ?Z.compare_refl; change (Pos.compare_cont Eq ma ma) with (Pos.compare ma ma);
    rewrite Pos.compare_refl; reflexivity.
Qed.

Lemma SFleb_number_r a b : SFleb a b = true -> SFleb b b = true.
Proof.
  unfold SFleb, SFcompare.
  destruct a as [[]|[]| |[] ma ea], b as [[]|[]| |[] mb eb];
    simpl; intros H1; try discriminate; try reflexivity;
    rewrite ?Z.compare_refl; change (Pos.compare_cont Eq mb mb) with (Pos.compare mb mb);
    rewrite Pos.compare_refl; reflexivity.
Qed.

Lemma leb_trans x y z :
  (x <=? y)%float = true -> (y <=? z)%float = true -> (x <=? z)%float = true.
Proof. rewrite !leb_spec. apply SFleb_trans. Qed.

Lemma ltb_leb x y : (x <? y)%float = true -> (x <=? y)%float = true.
Proof. rewrite ltb_spec, leb_spec. apply SFltb_leb. Qed.

Lemma leb_total x y :
  number x -> number y -> (x <? y)%float = false -> (y <=? x)%float = true.
Proof. unfold number. rewrite ltb_spec, !leb_spec. apply SFleb_total. Qed.

Lemma leb_number_l x y : (x <=? y)%float = true -> number x.
Proof. unfold number. rewrite !leb_spec. apply SFleb_number_l. Qed.

Lemma leb_number_r x y : (x <=? y)%float = true -> number y.
Proof. unfold number. rewrite !leb_spec. apply SFleb_number_r. Qed.

Lemma MIN_spec x y :
  number x -> number y ->
  (MIN x y = x \/ MIN x y = y) /\
  (MIN x y <=? x)%float = true /\ (MIN x y <=? y)%float = true.
Proof.
  intros Hx Hy. unfold MIN. destruct (x <? y)%float eqn:E.
  - split; [auto|]. split; [exact Hx|apply ltb_leb, E].
  - split; [auto|]. split; [apply leb_total; auto|exact Hy].
Qed.

Lemma MAX_spec x y :
  number x -> number y ->
  (MAX x y = x \/ MAX x y = y) /\
  (x <=? MAX x y)%float = true /\ (y <=? MAX x y)%float = true.
Proof.
  intros Hx Hy. unfold MAX. destruct (y <? x)%float eqn:E.
  - split; [auto|]. split; [exact Hx|apply ltb_leb, E].
  - split; [auto|]. split; [apply leb_total; auto|exact Hy].
Qed.

Lemma SFmul_comm a b : SFmul prec emax a b = SFmul prec emax b a.
Proof.
  destruct a as [[]|[]| |[] ma ea], b as [[]|[]| |[] mb eb]; simpl; try reflexivity;
    rewrite (Pos.mul_comm ma mb), (Z.add_comm ea eb); reflexivity.
Qed.

Lemma mul_comm x y : (x * y = y * x)%float.
Proof.
  apply Prim2SF_inj. rewrite !mul_spec. apply SFmul_comm.
Qed.

(** ** The summary *)

Lemma times_row n times :
  Z.of_nat (length times) = NTIMES n ->
  times_at times <$> seqZ 1 (NTIMES n - 1) = drop 1 times.
Proof.
  intros Hlen. apply list_eq. intros i.
  rewrite list_lookup_fmap, lookup_drop.
  destruct (Z.lt_ge_cases (Z.of_nat i) (NTIMES n - 1)).
  - rewrite lookup_seqZ_lt by lia. simpl. unfold times_at.
    replace (Z.to_nat (1 + Z.of_nat i)) with (Datatypes.S i) by lia.
    change (1 + i)%nat with (Datatypes.S i).
    destruct (lookup_lt_is_Some_2 times (Datatypes.S i) ltac:(lia)) as [t Ht].
    rewrite Ht. reflexivity.
  - rewrite lookup_seqZ_ge by lia. simpl. symmetry.
    apply lookup_ge_None. lia.
Qed.

Lemma fold_left_fmap {A B C} (f : A -> B -> A) (g : C -> B) l a :
  fold_left f (g <$> l) a = fold_left (fun a x => f a (g x)) l a.
Proof. revert a. induction l as [|x l IH]; intros a; simpl; auto. Qed.

Lemma summary_fold n times :
  Z.of_nat (length times) = NTIMES n ->
  fold_left (summary_step times) (seqZ 1 (NTIMES n - 1)) stats_init =
  fold_left stats_add (drop 1 times) stats_init.
Proof.
  intros Hlen. rewrite <- (times_row n times Hlen), fold_left_fmap. reflexivity.
Qed.

Lemma fold_stats l : forall s,
  avgtime (fold_left stats_add l s) = fold_left PrimFloat.add l (avgtime s) /\
  mintime (fold_left stats_add l s) = fold_left MIN l (mintime s) /\
  maxtime (fold_left stats_add l s) = fold_left MAX l (maxtime s).
Proof. induction l as [|t l IH]; intros s; simpl; [auto|]. apply IH. Qed.

Lemma summary_spec n times :
  Z.of_nat (length times) = NTIMES n ->
  avgtime (summary n times) =
    (fold_left PrimFloat.add (drop 1 times) 0 / double_of_Z (NTIMES n - 1))%float /\
  mintime (summary n times) = fold_left MIN (drop 1 times) FLT_MAX /\
  maxtime (summary n times) = fold_left MAX (drop 1 times) 0%float.
Proof.
  intros Hlen. unfold summary. cbn [avgtime mintime maxtime].
  rewrite (summary_fold n times Hlen).
  destruct (fold_stats (drop 1 times) stats_init) as (-> & -> & ->). auto.
Qed.

(** [times[0][0]] does not enter the statistics. *)
Lemma summary_skips_first n times t0 :
  summary n (<[0%nat := t0]> times) = summary n times.
Proof.
  unfold summary.
  assert (fold_left (summary_step (<[0%nat := t0]> times)) (seqZ 1 (NTIMES n - 1)) stats_init =
          fold_left (summary_step times) (seqZ 1 (NTIMES n - 1)) stats_init) as ->;
    [|reflexivity].
  assert (forall l s, Forall (fun k => 1 <= k) l ->
            fold_left (summary_step (<[0%nat := t0]> times)) l s =
            fold_left (summary_step times) l s) as H.
  { induction l as [|k l IH]; intros s Hl; [reflexivity|].
    inversion Hl as [|? ? Hk Hl']; subst. simpl. rewrite IH by exact Hl'.
    f_equal. unfold summary_step, times_at.
    rewrite list_lookup_insert_ne by lia. reflexivity. }
  apply H. apply Forall_seqZ. intros; lia.
Qed.

Lemma SFleb_not_ltb a b : SFleb b a = true -> SFltb a b = false.
Proof.
  unfold SFleb, SFltb, SFcompare.
  destruct a as [[]|[]| |[] ma ea], b as [[]|[]| |[] mb eb];
    simpl; intros H1; try discriminate; try reflexivity; cmp_cases.
Qed.

Lemma leb_not_ltb x y : (y <=? x)%float = true -> (x <? y)%float = false.
Proof. rewrite leb_spec, ltb_spec. apply SFleb_not_ltb. Qed.

Lemma fold_MIN_spec l : forall m0,
  number m0 -> (forall t, t ∈ l -> number t) ->
  let r := fold_left MIN l m0 in
  (r = m0 \/ r ∈ l) /\ (r <=? m0)%float = true /\
  forall t, t ∈ l -> (r <=? t)%float = true.
Proof.
  induction l as [|t1 l IH]; intros m0 Hm Hl; simpl.
  { split; [auto|]. split; [exact Hm|]. intros t Ht. inversion Ht. }
  assert (number t1) as Ht1 by (apply Hl; left).
  destruct (MIN_spec m0 t1 Hm Ht1) as (Hsel & Hle0 & Hle1).
  assert (number (MIN m0 t1)) as Hn by (destruct Hsel as [-> | ->]; auto).
  destruct (IH (MIN m0 t1) Hn) as (Hr & Hrm & Hrl).
  { intros t Ht. apply Hl. right. exact Ht. }
  split; [|split].
  - destruct Hr as [-> | Hr]; [|right; right; exact Hr].
    destruct Hsel as [-> | ->]; [left; reflexivity|right; left].
  - eapply leb_trans; eauto.
  - intros t Ht. apply elem_of_cons in Ht as [-> | Ht]; [|auto].
    eapply leb_trans; eauto.
Qed.

Lemma fold_MAX_spec l : forall m0,
  number m0 -> (forall t, t ∈ l -> number t) ->
  let r := fold_left MAX l m0 in
  (r = m0 \/ r ∈ l) /\ (m0 <=? r)%float = true /\
  forall t, t ∈ l -> (t <=? r)%float = true.
Proof.
  induction l as [|t1 l IH]; intros m0 Hm Hl; simpl.
  { split; [auto|]. split; [exact Hm|]. intros t Ht. inversion Ht. }
  assert (number t1) as Ht1 by (apply Hl; left).
  destruct (MAX_spec m0 t1 Hm Ht1) as (Hsel & Hle0 & Hle1).
  assert (number (MAX m0 t1)) as Hn by (destruct Hsel as [-> | ->]; auto).
  destruct (IH (MAX m0 t1) Hn) as (Hr & Hrm & Hrl).
  { intros t Ht. apply Hl. right. exact Ht. }
  split; [|split].
  - destruct Hr as [-> | Hr]; [|right; right; exact Hr].
    destruct Hsel as [-> | ->]; [left; reflexivity|right; left].
  - eapply leb_trans; eauto.
  - intros t Ht. apply elem_of_cons in Ht as [-> | Ht]; [|auto].
    eapply leb_trans; eauto.
Qed.

(** Starting from [FLT_MAX], the fold of [MIN] over times that are not
    above [FLT_MAX] is their minimum. *)
Lemma mintime_is_minimum l :
  l <> [] -> (forall t, t ∈ l -> (t <=? FLT_MAX)%float = true) ->
  is_minimum (fold_left MIN l FLT_MAX) l.
Proof.
  destruct l as [|t1 l]; [congruence|]. intros _ Hl. simpl.
  assert ((t1 <=? FLT_MAX)%float = true) as H1 by (apply Hl; left).
  assert (MIN FLT_MAX t1 = t1) as -> by (unfold MIN; rewrite leb_not_ltb; auto).
  destruct (fold_MIN_spec l t1) as (Hr & Hrm & Hrl).
  { eapply leb_number_l; eauto. }
  { intros t Ht. eapply leb_number_l, Hl. right. exact Ht. }
  split.
  - destruct Hr as [-> | Hr]; [left|right; exact Hr].
  - intros t Ht. apply elem_of_cons in Ht as [-> | Ht]; auto.
Qed.

(** Starting from 0, the fold of [MAX] over times that are not below 0
    is their maximum. *)
Lemma maxtime_is_maximum l :
  l <> [] -> (forall t, t ∈ l -> (0 <=? t)%float = true) ->
  is_maximum (fold_left MAX l 0%float) l.
Proof.
  destruct l as [|t1 l]; [congruence|]. intros _ Hl. simpl.
  assert ((0 <=? t1)%float = true) as H1 by (apply Hl; left).
  assert (MAX 0 t1 = t1) as -> by (unfold MAX; rewrite leb_not_ltb; auto).
  destruct (fold_MAX_spec l t1) as (Hr & Hrm & Hrl).
  { eapply leb_number_r; eauto. }
  { intros t Ht. eapply leb_number_r, Hl. right. exact Ht. }
  split.
  - destruct Hr as [-> | Hr]; [left|right; exact Hr].
  - intros t Ht. apply elem_of_cons in Ht as [-> | Ht]; auto.
Qed.

Lemma rest_nonempty n (times : list float) :
  Z.of_nat (length times) = NTIMES n -> drop 1 times <> [].
Proof.
  intros Hlen Hd. pose proof (NTIMES_ge_2 n).
  apply (f_equal length) in Hd. rewrite length_drop in Hd. simpl in Hd. lia.
Qed.

(** ** Reachable states of a trial *)

Lemma trial_reachable A env T k a b tr ths st :
  spawn A env T k = (tr, Ok ths) ->
  rtc (step (barrier_count T) (elapsed env k)) (trial_init a b ths) st ->
  trial_inv A T (attr_of env k) (elapsed env k) a b st.
Proof.
  intros Hsp Hst.
  destruct (Z.le_gt_cases T MAX_THREADS) as [HT|HT].
  - destruct (spawn_spec A env T k HT) as (tr' & Hsp' & _).
    rewrite Hsp in Hsp'. injection Hsp' as _ ->.
    eapply trial_inv_steps; [exact Hst|apply trial_inv_init].
  - unfold spawn in Hsp. destruct (setup_overflow A env T k HT) as (tr' & Hs & _).
    rewrite Hs in Hsp. discriminate.
Qed.

(** The memory a trial leaves does not depend on the schedule: [trial]
    may run the workers one after the other. *)
Theorem final_memory_unique A env T k a b tr ths st1 st2 :
  spawn A env T k = (tr, Ok ths) ->
  rtc (step (barrier_count T) (elapsed env k)) (trial_init a b ths) st1 ->
  rtc (step (barrier_count T) (elapsed env k)) (trial_init a b ths) st2 ->
  all_exited st1 -> all_exited st2 ->
  forall j, st_b st1 j = st_b st2 j.
Proof.
  intros Hsp H1 H2 Hex1 Hex2 j.
  assert (forall st,
            trial_inv A T (attr_of env k) (elapsed env k) a b st -> all_exited st ->
            covered A T j -> st_b st j = a j) as Hcov.
  { intros st (_ & Hlen & Hth & _) Hex (w & Hw & Hj).
    destruct (lookup_lt_is_Some_2 (st_threads st) (Z.to_nat w) ltac:(lia)) as [o Ho].
    destruct (Hex _ _ Ho) as (th & -> & Hp).
    destruct (Hth _ _ Ho) as (_ & _ & _ & _ & Hph). rewrite Hp in Hph.
    destruct Hph as [Hcopy _]. rewrite Z2Nat.id in Hcopy by lia.
    replace j with (chunk_start A T w + (j - chunk_start A T w)) by lia.
    apply Hcopy. lia. }
  pose proof (trial_reachable _ _ _ _ _ _ _ _ _ Hsp H1) as I1.
  pose proof (trial_reachable _ _ _ _ _ _ _ _ _ Hsp H2) as I2.
  destruct I1 as (? & ? & ? & Hb1 & ?) eqn:E1. destruct I2 as (? & ? & ? & Hb2 & ?) eqn:E2.
  destruct (Hb1 j) as [Ho1 | [Ha1 Hc1]], (Hb2 j) as [Ho2 | [Ha2 Hc2]];
    try congruence.
  - rewrite Ha2. apply (Hcov st1); auto.
  - rewrite Ha1. symmetry. apply (Hcov st2); auto.
Qed.

Lemma elem_of_log A T st e :
  Forall (access_ok A T) (st_log st) -> e ∈ st_log st -> access_ok A T e.
Proof. intros H He. eapply Forall_forall in H; eauto. Qed.

Lemma sum_sizes A T (l : list Z) :
  foldr Z.add 0 (arg_size <$> (assignment A T <$> l)) = Z.of_nat (length l) * chunk_size A T.
Proof.
  induction l as [|x l IH]; [reflexivity|].
  rewrite !fmap_cons. cbn [foldr length]. rewrite IH. simpl arg_size. lia.
Qed.

(** ** The specification, property by property *)

(** C2, work partitioning, for arrays that a 32-bit size can describe:
    if [0 <= A < 2^32] and [1 <= T <= 288], the chunk size the code
    computes is [floor(A/T)] rounded down to a multiple of 16, the
    set-up loop stores [T] assignments, worker [i] gets the elements
    from [i*S] in both arrays, the sizes add up to [T*S], and
    [T*S <= A]. For 400,000,000 elements and 4 threads each worker gets
    100,000,000. *)
Theorem partition_32bit A T :
  0 <= A < 2 ^ 32 -> 1 <= T <= MAX_THREADS ->
  partition_as_specified A T /\
  chunk_size A T = spec_chunk_size A T /\
  spec_chunk_size 400000000 4 = 100000000.
Proof.
  intros HA HT.
  assert (chunk_size A T = spec_chunk_size A T) as Hcs by (apply chunk_size_small; lia).
  split; [|split; [exact Hcs|reflexivity]].
  unfold partition_as_specified. cbv zeta. rewrite <- Hcs.
  split; [apply chunk_total_le; lia|].
  intros env k. destruct (setup_spec A env T k ltac:(lia)) as (tr & Hs & _).
  eexists _, _, _. split; [exact Hs|].
  split; [rewrite length_fmap, length_seqZ; lia|]. split.
  - intros i arg. rewrite list_lookup_fmap.
    destruct (seqZ 0 T !! i) as [x|] eqn:E; [|discriminate].
    apply lookup_seqZ in E as [-> Hi]. simpl. intros [= <-]. simpl.
    rewrite Z.add_0_l, chunk_start_small by lia. auto.
  - rewrite sum_sizes, length_seqZ. lia.
Qed.

(** The scenario of the specification: 400,000,000 elements, 4 threads. *)
Lemma partition_32bit_witness :
  (0 <= 400000000 < 2 ^ 32) /\ (1 <= 4 <= MAX_THREADS) /\
  partition_as_specified 400000000 4.
Proof.
  assert (0 <= 400000000 < 2 ^ 32) as HA by lia.
  assert (1 <= 4 <= MAX_THREADS) as HT by (unfold MAX_THREADS; lia).
  split; [exact HA|]. split; [exact HT|].
  exact (proj1 (partition_32bit 400000000 4 HA HT)).
Defined.

(** With 2^32 elements and one thread the chunk size is 0, not 2^32:
    [uint32_t size] drops the high bits. With 289 threads the set-up
    loop writes past [attr[287]] and [info[287]]. *)
Lemma partition_counterexample :
  ~ partition_as_specified (2 ^ 32) 1 /\ ~ partition_as_specified 128000000 289.
Proof.
  split; intros [_ H]; destruct (H (env_ok 1) 0) as (tr & attr & info & Hs & Hlen & Hi & _).
  - destruct (setup_spec (2 ^ 32) (env_ok 1) 1 0 ltac:(unfold MAX_THREADS; lia))
      as (tr' & Hs' & _).
    rewrite Hs in Hs'. injection Hs' as _ _ ->.
    destruct (Hi O (assignment (2 ^ 32) 1 0) eq_refl) as [Hsz _].
    vm_compute in Hsz. discriminate.
  - destruct (setup_overflow 128000000 (env_ok 1) 289 0 ltac:(unfold MAX_THREADS; lia))
      as (tr' & Hs' & _).
    rewrite Hs in Hs'. discriminate.
Qed.

(** C1, copy correctness, for arrays that a 32-bit size can describe:
    if [0 <= A < 2^32] then, for every thread count and every
    interleaving of the workers, once all of them have exited the
    destination equals the source at [i*S + m] for every worker
    [0 <= i < T] and every [0 <= m < S]. Such a final state exists
    whenever [0 <= T <= 288] and every thread is created. *)
Theorem copy_correct A T :
  0 <= A < 2 ^ 32 ->
  copy_as_specified A T /\
  forall env k a b,
    0 <= T <= MAX_THREADS ->
    (forall x, 0 <= x < T -> create_ok env k x = true) ->
    exists tr ths st,
      spawn A env T k = (tr, Ok ths) /\
      rtc (step (barrier_count T) (elapsed env k)) (trial_init a b ths) st /\
      all_exited st.
Proof.
  intros HA. split.
  - unfold copy_as_specified. cbv zeta. intros env k a b tr ths st Hsp Hst Hex i m Hi Hm.
    destruct (trial_reachable _ _ _ _ _ _ _ _ _ Hsp Hst) as (Ha & Hlen & Hth & _).
    destruct (lookup_lt_is_Some_2 (st_threads st) (Z.to_nat i) ltac:(lia)) as [o Ho].
    destruct (Hex _ _ Ho) as (th & -> & Hp).
    destruct (Hth _ _ Ho) as (_ & _ & _ & _ & Hph). rewrite Hp in Hph.
    destruct Hph as [Hcopy _]. rewrite Z2Nat.id in Hcopy by lia.
    rewrite chunk_start_small in Hcopy by lia.
    rewrite Ha. apply Hcopy. exact Hm.
  - intros env k a b HT Hc.
    destruct (spawn_spec A env T k ltac:(lia)) as (tr & Hsp & _).
    eexists _, _, _. split; [exact Hsp|]. split; [apply run_trial_steps|].
    apply (run_trial_exits A env T k a b HT Hc).
Qed.

Lemma copy_correct_witness : (0 <= 64 < 2 ^ 32) /\ copy_as_specified 64 2.
Proof.
  assert (0 <= 64 < 2 ^ 32) as HA by lia.
  split; [exact HA|]. exact (proj1 (copy_correct 64 2 HA)).
Defined.

Lemma not_covered_big j :
  j = 2 * chunk_size (2 ^ 33) 3 -> ~ covered (2 ^ 33) 3 j.
Proof.
  intros -> (w & Hw & Hc).
  assert (w = 0 \/ w = 1 \/ w = 2) as [-> | [-> | ->]] by lia;
    vm_compute in Hc; destruct Hc as [H1 H2];
    try (apply H1; reflexivity); try discriminate H2.
Qed.

(** Three workers on 2^33 elements: [S] is 2863311520 and [size*tt] for
    worker 2 wraps to 1431655744, so nothing is copied to the element at
    [2*S]: the destination keeps 2.0 where the source has 1.0. *)
Lemma copy_counterexample : ~ copy_as_specified (2 ^ 33) 3.
Proof.
  intros H.
  set (a := fun _ : Z => float_1_0). set (b := fun _ : Z => float_2_0).
  destruct (spawn_spec (2 ^ 33) (env_ok 3) 3 0 ltac:(unfold MAX_THREADS; lia))
    as (tr & Hsp & _).
  set (st := run_trial (barrier_count 3) (elapsed (env_ok 3) 0)
               (trial_init a b (spawned (2 ^ 33) (env_ok 3) 3 0))).
  assert (rtc (step (barrier_count 3) (elapsed (env_ok 3) 0))
            (trial_init a b (spawned (2 ^ 33) (env_ok 3) 3 0)) st) as Hst
    by apply run_trial_steps.
  assert (all_exited st) as Hex.
  { apply (run_trial_exits (2 ^ 33) (env_ok 3) 3 0 a b); [unfold MAX_THREADS; lia|].
    reflexivity. }
  specialize (H (env_ok 3) 0 a b tr _ st Hsp Hst Hex 2 0 ltac:(lia) ltac:(vm_compute; split; congruence)).
  destruct (trial_reachable _ _ _ _ _ _ _ _ _ Hsp Hst) as (Ha & _ & _ & Hb & _).
  rewrite Ha in H. rewrite Z.add_0_r in H.
  destruct (Hb (2 * chunk_size (2 ^ 33) 3)) as [Hold | [_ Hcov]].
  - rewrite H in Hold. discriminate Hold.
  - apply (not_covered_big _ eq_refl Hcov).
Qed.

Lemma covered_small A T j :
  0 <= A < 2 ^ 32 -> covered A T j ->
  exists w, 0 <= w < T /\ w * chunk_size A T <= j < (w + 1) * chunk_size A T.
Proof.
  intros HA (w & Hw & Hj). exists w. split; [exact Hw|].
  rewrite chunk_start_small in Hj by lia. lia.
Qed.

Lemma access_ok_small A T e j :
  0 <= A < 2 ^ 32 -> access_ok A T e -> touches e j ->
  let w := Z.of_nat (access_worker e) in
  w * chunk_size A T <= j < (w + 1) * chunk_size A T /\
  0 <= j < T * chunk_size A T.
Proof.
  intros HA (Hw & i & Hi & Hi16 & _ & Hidx & _) Ht. unfold touches in Ht.
  rewrite Hidx, chunk_start_small in Ht by lia.
  pose proof (chunk_size_range A T). cbv zeta. split; [lia|]. nia.
Qed.

(** C6, the frame of a trial, for arrays that a 32-bit size can
    describe: if [0 <= A < 2^32] then at every moment of a trial no
    element at or above [T*S] has been read or written, every store went
    to the destination inside the range of the worker that made it, the
    source is unchanged, and the destination is unchanged outside
    [0 .. T*S-1]. *)
Theorem frame_32bit A T :
  0 <= A < 2 ^ 32 -> frame_as_specified A T.
Proof.
  intros HA. unfold frame_as_specified. cbv zeta.
  intros env k a b tr ths st Hsp Hst.
  destruct (trial_reachable _ _ _ _ _ _ _ _ _ Hsp Hst) as (Ha & _ & _ & Hb & Hlog).
  split; [|split; [|split; [exact Ha|]]].
  - intros e j He Ht.
    apply (access_ok_small A T e j HA (elem_of_log _ _ _ _ Hlog He) Ht).
  - intros e j He Hs Ht. pose proof (elem_of_log _ _ _ _ Hlog He) as Hok.
    split; [|apply (access_ok_small A T e j HA Hok Ht)].
    destruct Hok as (_ & i & _ & _ & _ & _ & Harr). rewrite Hs in Harr. exact Harr.
  - intros j Hj. destruct (Hb j) as [Hold | [_ Hcov]]; [exact Hold|].
    destruct (covered_small A T j HA Hcov) as (w & Hw & Hwj).
    pose proof (chunk_size_range A T). exfalso. apply Hj. nia.
Qed.

Lemma frame_32bit_witness : (0 <= 64 < 2 ^ 32) /\ frame_as_specified 64 2.
Proof.
  assert (0 <= 64 < 2 ^ 32) as HA by lia.
  split; [exact HA|]. exact (frame_32bit 64 2 HA).
Defined.

Lemma early_state_reachable a b :
  rtc (step (barrier_count 3) (elapsed (env_ok 3) 0))
    (trial_init a b (spawned (2 ^ 33) (env_ok 3) 3 0)) (early_state a b).
Proof.
  unfold early_state. etrans; [apply open_barrier1_steps|apply copy_loop_steps].
Qed.

Lemma early_state_log a b :
  st_log (early_state a b) = [VLoad 2 ArrA 1431655744; VStore 2 ArrB 1431655744].
Proof. reflexivity. Qed.

(** Three workers on 2^33 elements: the first store of worker 2 goes to
    index 1431655744, below its range, which starts at 5726623040. *)
Lemma frame_counterexample : ~ frame_as_specified (2 ^ 33) 3.
Proof.
  intros H.
  destruct (spawn_spec (2 ^ 33) (env_ok 3) 3 0 ltac:(unfold MAX_THREADS; lia))
    as (tr & Hsp & _).
  destruct (H (env_ok 3) 0 (fun _ => 0) (fun _ => 0) tr _ _ Hsp
              (early_state_reachable _ _)) as (_ & Hstore & _).
  destruct (Hstore (VStore 2 ArrB 1431655744) 1431655744) as [_ [Hlo _]].
  - rewrite early_state_log. right; left.
  - reflexivity.
  - unfold touches. simpl. lia.
  - vm_compute in Hlo. apply Hlo. reflexivity.
Qed.

(** C10, in-bounds safety of the kernel loop, for arrays that a 32-bit
    size can describe: the chunk size is a multiple of 16 and
    [T*S <= A]; if [0 <= A < 2^32] then every access made during a trial
    is a whole vector starting at a multiple of 16 within the view of
    its worker, and every element it touches lies in
    [w*S .. (w+1)*S-1] and in [0 .. T*S-1]. *)
Theorem in_bounds_32bit A T :
  0 <= A < 2 ^ 32 -> in_bounds_as_specified A T.
Proof.
  intros HA. unfold in_bounds_as_specified. cbv zeta.
  pose proof (chunk_size_range A T) as HS.
  split; [apply chunk_size_mod16|]. split.
  - destruct (Z.le_gt_cases 1 T); [apply chunk_total_le; lia|nia].
  - intros env k a b tr ths st Hsp Hst e He.
    destruct (trial_reachable _ _ _ _ _ _ _ _ _ Hsp Hst) as (_ & _ & _ & _ & Hlog).
    pose proof (elem_of_log _ _ _ _ Hlog He) as Hok. split.
    + destruct Hok as (_ & i & Hi & Hi16 & Hmod & Hidx & _). exists i. simpl.
      destruct (is_store e); auto.
    + intros j Ht. apply (access_ok_small A T e j HA Hok Ht).
Qed.

Lemma in_bounds_32bit_witness : (0 <= 64 < 2 ^ 32) /\ in_bounds_as_specified 64 2.
Proof.
  assert (0 <= 64 < 2 ^ 32) as HA by lia.
  split; [exact HA|]. exact (in_bounds_32bit 64 2 HA).
Defined.

(** Three workers on 2^33 elements: the first load of worker 2 is at
    index 1431655744, outside [2*S .. 3*S-1]. *)
Lemma in_bounds_counterexample : ~ in_bounds_as_specified (2 ^ 33) 3.
Proof.
  intros (_ & _ & H).
  destruct (spawn_spec (2 ^ 33) (env_ok 3) 3 0 ltac:(unfold MAX_THREADS; lia))
    as (tr & Hsp & _).
  destruct (H (env_ok 3) 0 (fun _ => 0) (fun _ => 0) tr _ _ Hsp
              (early_state_reachable _ _) (VLoad 2 ArrA 1431655744)) as [_ Hj].
  - rewrite early_state_log. left.
  - destruct (Hj 1431655744) as [[Hlo _] _].
    + unfold touches. simpl. lia.
    + vm_compute in Hlo. apply Hlo. reflexivity.
Qed.

(** C3, the time recorded for a trial: if [1 <= T <= 288], every thread
    of trial [k] is created and [a] and [b] are allocated, the trial
    returns and [times[0][k]] is the arithmetic mean of the [T] slots
    [info[x].time], each of which holds the interval worker [x] measured
    itself: their sum, added up from 0 in the order of the workers,
    divided by [T], in [double]. No other clock reading enters it. *)
Theorem trial_time_is_mean A env T k m :
  1 <= T <= MAX_THREADS ->
  (forall x, 0 <= x < T -> create_ok env k x = true) ->
  a_ok m = true -> b_ok m = true ->
  exists tr m' tr0 ths,
    trial A env T k m = (tr, Ok (m', mean_of (elapsed env k <$> seqZ 0 T))) /\
    spawn A env T k = (tr0, Ok ths) /\
    let st := run_trial (barrier_count T) (elapsed env k)
                (trial_init (arr_a m) (arr_b m) ths) in
    forall x, 0 <= x < T ->
      exists th, st_threads st !! Z.to_nat x = Some (Some th) /\
        th_phase th = Exited /\
        arg_time (th_arg th) = Some (elapsed env k x).
Proof.
  intros HT Hc Ha Hb.
  destruct (trial_returns A env T k m ltac:(lia) Hc Ha Hb) as (tr & m' & Ht & _).
  destruct (spawn_spec A env T k ltac:(lia)) as (tr0 & Hsp & _).
  exists tr, m', tr0, (spawned A env T k). split; [exact Ht|]. split; [exact Hsp|].
  cbv zeta. intros x Hx.
  destruct (run_trial_exits A env T k (arr_a m) (arr_b m) ltac:(lia) Hc) as [Hex Hlen].
  set (st := run_trial _ _ _) in *.
  assert (trial_inv A T (attr_of env k) (elapsed env k) (arr_a m) (arr_b m) st) as Hinv.
  { eapply trial_inv_steps; [apply run_trial_steps|apply trial_inv_init]. }
  destruct (lookup_lt_is_Some_2 (st_threads st) (Z.to_nat x) ltac:(lia)) as [o Ho].
  destruct (Hex _ _ Ho) as (th & -> & Hp). exists th.
  destruct Hinv as (_ & _ & Hth & _).
  destruct (Hth _ _ Ho) as (_ & _ & _ & _ & Hph). rewrite Hp in Hph.
  destruct Hph as [_ Htime]. rewrite Z2Nat.id in Htime by lia. auto.
Qed.

Lemma trial_time_is_mean_witness :
  exists tr m',
    trial 64 (env_ok 2) 2 0 mem_example =
      (tr, Ok (m', mean_of (elapsed (env_ok 2) 0 <$> seqZ 0 2))).
Proof.
  destruct (trial_time_is_mean 64 (env_ok 2) 2 0 mem_example) as (tr & m' & _ & _ & H & _).
  - unfold MAX_THREADS. lia.
  - reflexivity.
  - reflexivity.
  - reflexivity.
  - exists tr, m'. exact H.
Defined.

(** C4, aggregate statistics, for times between 0 and [FLT_MAX]: if the
    row has [NTIMES] entries and every entry but the first is a number
    with [0 <= t <= FLT_MAX], then the statistics do not depend on entry
    0, [avgtime] is the sum of the other entries (in [double], from 0)
    divided by [NTIMES-1], [mintime] is their minimum, [maxtime] their
    maximum, and [mintime <= maxtime]. Nothing is said of where
    [avgtime] lies. *)
Theorem summary_statistics n times :
  Z.of_nat (length times) = NTIMES n ->
  (forall t, t ∈ drop 1 times ->
     (0 <=? t)%float = true /\ (t <=? FLT_MAX)%float = true) ->
  let rest := drop 1 times in
  let s := summary n times in
  (forall t0, summary n (<[0%nat := t0]> times) = s) /\
  avgtime s = (fold_left PrimFloat.add rest 0 / double_of_Z (NTIMES n - 1))%float /\
  is_minimum (mintime s) rest /\
  is_maximum (maxtime s) rest /\
  (mintime s <=? maxtime s)%float = true.
Proof.
  intros Hlen Hr. cbv zeta.
  destruct (summary_spec n times Hlen) as (Havg & Hmin & Hmax).
  pose proof (rest_nonempty n times Hlen) as Hne.
  assert (is_minimum (mintime (summary n times)) (drop 1 times)) as Hismin.
  { rewrite Hmin. apply mintime_is_minimum; [exact Hne|]. intros t Ht. apply Hr, Ht. }
  assert (is_maximum (maxtime (summary n times)) (drop 1 times)) as Hismax.
  { rewrite Hmax. apply maxtime_is_maximum; [exact Hne|]. intros t Ht. apply Hr, Ht. }
  split; [intros t0; apply summary_skips_first|].
  split; [exact Havg|]. split; [exact Hismin|]. split; [exact Hismax|].
  destruct Hismin as [Hin Hle]. destruct Hismax as [_ Hge].
  eapply leb_trans; [apply Hle, Hin|apply Hge, Hin].
Qed.

Lemma summary_statistics_witness :
  is_minimum (mintime (summary (Some 3) times_example)) (drop 1 times_example) /\
  is_maximum (maxtime (summary (Some 3) times_example)) (drop 1 times_example).
Proof.
  destruct (summary_statistics (Some 3) times_example) as (_ & _ & Hmin & Hmax & _).
  - reflexivity.
  - intros t Ht. simpl in Ht.
    apply elem_of_cons in Ht as [-> | Ht]; [split; reflexivity|].
    apply elem_of_cons in Ht as [-> | Ht]; [split; reflexivity|].
    inversion Ht.
  - split; assumption.
Defined.

(** The rows [times[0]] of three runs. Three workers that measure
    50000, 50001 and 50002 microseconds in every trial: the nine equal
    means add up to a sum that rounds down, and [avgtime] is below
    [mintime]. No worker ([T = 0]): every time is 0/0, a NaN, and no
    comparison holds. A clock set back during every trial: the times are
    negative and [maxtime] stays at its initial 0. *)
Lemma summary_counterexample :
  ~ aggregate_as_specified None (trial_means None env_three 3) /\
  ~ aggregate_as_specified None (trial_means None (env_ok 0) 0) /\
  ~ aggregate_as_specified None (trial_means None env_clock_back 1).
Proof.
  split; [|split].
  - intros (_ & _ & _ & _ & H & _). vm_compute in H. discriminate.
  - intros (_ & _ & _ & _ & H & _). vm_compute in H. discriminate.
  - intros (_ & _ & _ & [H _] & _). vm_compute in H.
    repeat (apply elem_of_cons in H as [H | H];
            [apply (f_equal (fun x => (x <? 0)%float)) in H; vm_compute in H;
             discriminate|]).
    inversion H.
Qed.

Lemma stdout_main A n env :
  stdout (main A n env).1 = stdout (main_after_alloc A n env (allocated env)).1.
Proof. rewrite main_unfold. cbn [fst]. rewrite stdout_app, stdout_alloc. reflexivity. Qed.

Lemma result_main A n env :
  (main A n env).2 = (main_after_alloc A n env (allocated env)).2.
Proof. rewrite main_unfold. reflexivity. Qed.



(** C7, as the code behaves: there is no configuration check. [main]
    requests the three allocations before anything else, whatever the
    thread count. When the allocations of [a] and [b] and all thread
    creations succeed and [0 <= T <= 288], the run returns 0 and prints
    its line: also for [T = 0], and also when the chunk size is 0. For
    [T < 0] or [T > 288] the behaviour is undefined (a fault here), and
    nothing is printed. *)
Theorem no_configuration_check A n env :
  (exists tr, (main A n env).1 = alloc_events env ++ tr) /\
  (memalign_ok env ArrA = true -> memalign_ok env ArrB = true ->
   0 <= thread_count env <= MAX_THREADS ->
   (forall k x, 0 <= k < NTIMES n -> 0 <= x < thread_count env ->
      create_ok env k x = true) ->
   (main A n env).2 = Ok 0 /\
   exists bw, stdout (main A n env).1 = [(thread_count env, bw)]) /\
  (thread_count env < 0 \/ MAX_THREADS < thread_count env ->
   (main A n env).2 = Fault /\ stdout (main A n env).1 = []).
Proof.
  split; [apply main_allocates_first|]. split.
  - intros Ha Hb HT Hc. destruct (main_returns A n env Ha Hb HT Hc) as [H1 H2]. eauto.
  - intros HT. rewrite stdout_main, result_main.
    assert ((main_after_alloc A n env (allocated env)).2 = Fault) as Hf.
    { apply main_after_alloc_fault. intros m. apply run_trials_first_fault.
      intros m'. destruct HT; [apply trial_negative|apply trial_overflow]; assumption. }
    split; [exact Hf|].
    destruct (main_after_alloc_cases A n env (allocated env))
      as [[Hout _] | (m & tr1 & m1 & times & _ & _ & Hok & _)]; [exact Hout|].
    rewrite Hf in Hok. discriminate.
Qed.

Lemma no_configuration_check_witness :
  ((main 64 None (env_ok 0)).2 = Ok 0 /\
   exists bw, stdout (main 64 None (env_ok 0)).1 = [(thread_count (env_ok 0), bw)]) /\
  ((main 64 None (env_ok (-1))).2 = Fault /\ stdout (main 64 None (env_ok (-1))).1 = []) /\
  ((main 64 None (env_ok 289)).2 = Fault /\ stdout (main 64 None (env_ok 289)).1 = []).
Proof.
  split; [|split].
  - apply (proj1 (proj2 (no_configuration_check 64 None (env_ok 0)))).
    + reflexivity.
    + reflexivity.
    + vm_compute. split; discriminate.
    + intros k x _ Hx. vm_compute in Hx. destruct Hx as [H1 H2].
      destruct x; try discriminate H2; exfalso; apply H1; reflexivity.
  - apply (proj2 (proj2 (no_configuration_check 64 None (env_ok (-1))))).
    left. vm_compute. reflexivity.
  - apply (proj2 (proj2 (no_configuration_check 64 None (env_ok 289)))).
    right. vm_compute. reflexivity.
Defined.

(** With [T = 0] the arrays are allocated, ten empty trials run, and a
    line is printed (its value is a NaN). *)
Lemma rejection_counterexample : ~ rejection_as_specified 64 None.
Proof.
  intros H. destruct (H (env_ok 0)) as [Hok _].
  - left. vm_compute. discriminate.
  - vm_compute in Hok. discriminate.
Qed.







(** * Further properties of the program *)

(** ** The partition *)

(** X1. What the partition leaves out. For [0 <= A < 2^32] and [T >= 1]
    the [T] chunks cover all but fewer than [16*T] of the [A] elements;
    they cover all of them exactly when [16*T] divides [A]; and the
    chunk size is 0, so that nothing at all is copied, exactly when
    [A < 16*T]. *)
Theorem dropped_tail A T :
  0 <= A < 2 ^ 32 -> 1 <= T ->
  0 <= A - T * chunk_size A T < 16 * T /\
  (T * chunk_size A T = A <-> A mod (16 * T) = 0) /\
  (chunk_size A T = 0 <-> A < 16 * T).
Proof.
  intros HA HT. rewrite chunk_size_small by lia.
  pose proof (Z.div_mod A T ltac:(lia)) as H1.
  pose proof (Z.mod_pos_bound A T ltac:(lia)) as H2.
  pose proof (Z.div_mod (A / T) 16 ltac:(lia)) as H3.
  pose proof (Z.mod_pos_bound (A / T) 16 ltac:(lia)) as H4.
  set (p := A / T / 16) in *. set (r2 := (A / T) mod 16) in *.
  set (r := A mod T) in *. set (q := A / T) in *.
  assert (A = p * (16 * T) + (T * r2 + r)) as HAeq by nia.
  assert (0 <= T * r2 + r < 16 * T) as Hrem by nia.
  assert (A mod (16 * T) = T * r2 + r) as Hmod.
  { symmetry. apply Z.mod_unique with (q := p); [left; lia|lia]. }
  rewrite Hmod. split; [nia|]. split; [split; intros; nia|].
  split; intros; nia.
Qed.

(** 100 elements, 3 threads: the chunk size is 32 and 4 elements are left out. *)
Lemma dropped_tail_witness :
  0 <= 100 - 3 * chunk_size 100 3 < 16 * 3 /\ 3 * chunk_size 100 3 <> 100.
Proof.
  destruct (dropped_tail 100 3) as (H1 & H2 & _); [lia|lia|].
  split; [exact H1|]. intros H. apply H2 in H. vm_compute in H. discriminate.
Defined.

(** ** The barriers and the progress of a trial *)

Lemma waiting_zero p ths :
  (forall w o, ths !! w = Some o -> at_phase p o = false) -> waiting p ths = 0%nat.
Proof.
  induction ths as [|o ths IH]; intros H; [reflexivity|].
  simpl. rewrite (H 0%nat o eq_refl). rewrite IH; [reflexivity|].
  intros w o' Hw. apply (H (Datatypes.S w)). exact Hw.
Qed.

Lemma waiting_full p ths w o :
  waiting p ths = length ths -> ths !! w = Some o -> at_phase p o = true.
Proof.
  intros Hfull Hw. destruct (at_phase p o) eqn:E; [reflexivity|].
  pose proof (waiting_lt p ths w o Hw E). lia.
Qed.

Lemma barrier_release_full count p next ths ths' :
  barrier_release count p next ths = Some ths' ->
  Z.of_nat (length ths) = count ->
  forall w o, ths' !! w = Some o ->
    exists th, ths !! w = Some (Some th) /\ th_phase th = p /\ o = Some (next w th).
Proof.
  intros Hrel Hlen w o Hw. pose proof Hrel as Hrel0.
  unfold barrier_release in Hrel.
  destruct (Z.of_nat (waiting p ths) =? count) eqn:E; [|discriminate].
  apply Z.eqb_eq in E.
  destruct (barrier_release_lookup _ _ _ _ _ _ _ Hrel0 Hw)
    as (o0 & Ho0 & [[Hno _] | (th & -> & Hp & ->)]).
  - rewrite (waiting_full p ths w o0) in Hno; [discriminate|lia|exact Ho0].
  - exists th. auto.
Qed.

Lemma barrier_release_none count p next ths ths' :
  barrier_release count p next ths = Some ths' ->
  (forall w o, ths !! w = Some o -> at_phase p o = false) ->
  ths' = ths.
Proof.
  intros Hrel Hno. apply list_eq. intros w.
  destruct (ths' !! w) as [o|] eqn:Hw.
  - destruct (barrier_release_lookup _ _ _ _ _ _ _ Hrel Hw)
      as (o0 & Ho0 & [[_ ->] | (th & -> & Hp & ->)]); [congruence|].
    specialize (Hno _ _ Ho0). destruct p; simpl in Hno; rewrite Hp in Hno;
      try discriminate. rewrite Z.eqb_refl in Hno. discriminate.
  - apply lookup_ge_None in Hw.
    rewrite (barrier_release_length _ _ _ _ _ Hrel) in Hw.
    symmetry. apply lookup_ge_None. exact Hw.
Qed.

Section Barriers.
Variables (T : Z) (el : Z -> float) (b0 : array).

Lemma barrier_inv_step st st' :
  Z.of_nat (length (st_threads st)) = Z.max 0 T -> T <= MAX_THREADS ->
  step (barrier_count T) el st st' ->
  barrier_inv b0 st -> barrier_inv b0 st'.
Proof.
  intros Hlen HT Hstep Hinv.
  assert (st_threads st = [] \/
          Z.of_nat (length (st_threads st)) = barrier_count T) as Hcount.
  { destruct (st_threads st) eqn:E; [left; reflexivity|right].
    simpl in *. rewrite barrier_count_small; lia. }
  destruct Hstep as [st ths' Hrel | st w th th' b' ev Hw Hls | st ths' Hrel].
  - (* the first barrier opens *)
    destruct Hcount as [Hnil|Hcount].
    { apply barrier_release_none in Hrel as ->; [destruct st; exact Hinv|].
      rewrite Hnil. intros ? ? H. rewrite lookup_nil in H. discriminate. }
    right; left. intros w o Hw. simpl in Hw.
    destruct (barrier_release_full _ _ _ _ _ Hrel Hcount w o Hw) as (th & _ & _ & ->).
    eexists; split; [reflexivity|]. right. exists 0. reflexivity.
  - (* one pass of a loop *)
    unfold copy_step in Hls.
    destruct (th_phase th) as [|i| |] eqn:Hph; try discriminate.
    destruct Hinv as [(_ & _ & Hb1) | [Hc | Hex]].
    + specialize (Hb1 _ _ Hw). congruence.
    + right; left. intros w' o Hw'. simpl in Hw'.
      destruct (decide (w = w')) as [<-|Hne].
      * rewrite list_lookup_insert_eq in Hw' by (eapply lookup_lt_Some; eauto).
        injection Hw' as <-. eexists; split; [reflexivity|].
        destruct (i <? arg_size (th_arg th)); injection Hls as <- _ _; simpl; eauto.
      * rewrite list_lookup_insert_ne in Hw' by exact Hne. apply (Hc _ _ Hw').
    + destruct (Hex _ _ Hw) as (th0 & [= <-] & Hx). congruence.
  - (* the second barrier opens *)
    destruct Hcount as [Hnil|Hcount].
    { apply barrier_release_none in Hrel as ->; [destruct st; exact Hinv|].
      rewrite Hnil. intros ? ? H. rewrite lookup_nil in H. discriminate. }
    right; right. intros w o Hw. simpl in Hw.
    destruct (barrier_release_full _ _ _ _ _ Hrel Hcount w o Hw) as (th & _ & _ & ->).
    eexists; split; reflexivity.
Qed.

Lemma barrier_inv_steps st st' :
  T <= MAX_THREADS ->
  rtc (step (barrier_count T) el) st st' ->
  Z.of_nat (length (st_threads st)) = Z.max 0 T ->
  barrier_inv b0 st ->
  barrier_inv b0 st' /\ Z.of_nat (length (st_threads st')) = Z.max 0 T.
Proof.
  intros HT Hst. induction Hst as [st|st st1 st2 Hstep _ IH]; intros Hlen Hinv; [auto|].
  apply IH.
  - destruct Hstep as [st ths' Hrel | st w th th' b' ev Hw Hls | st ths' Hrel]; simpl.
    + rewrite (barrier_release_length _ _ _ _ _ Hrel). exact Hlen.
    + rewrite length_insert. exact Hlen.
    + rewrite (barrier_release_length _ _ _ _ _ Hrel). exact Hlen.
  - eapply barrier_inv_step; eauto.
Qed.

End Barriers.



Lemma open_barrier_frame count p next st :
  st_a (open_barrier count p next st) = st_a st /\
  st_b (open_barrier count p next st) = st_b st /\
  st_log (open_barrier count p next st) = st_log st /\
  length (st_threads (open_barrier count p next st)) = length (st_threads st).
Proof.
  unfold open_barrier. destruct (barrier_release _ _ _ _) as [ths'|] eqn:E; simpl; auto.
  rewrite (barrier_release_length _ _ _ _ _ E). auto.
Qed.

Lemma open_barrier_all count p next st :
  (forall i, p <> Loop i) ->
  (st_threads st <> [] -> Z.of_nat (length (st_threads st)) = count) ->
  (forall w o, st_threads st !! w = Some o -> exists th, o = Some th /\ th_phase th = p) ->
  forall w o, st_threads (open_barrier count p next st) !! w = Some o ->
    exists th, st_threads st !! w = Some (Some th) /\ o = Some (next w th).
Proof.
  intros Hp Hcount Hall w o Hw.
  assert (st_threads st <> []) as Hne.
  { intros Hnil. destruct (open_barrier_frame count p next st) as (_ & _ & _ & Hlen).
    apply lookup_lt_Some in Hw. rewrite Hlen, Hnil in Hw. simpl in Hw. lia. }
  specialize (Hcount Hne). unfold open_barrier, barrier_release in Hw.
  rewrite waiting_all in Hw.
  2:{ intros w' o' Hw'. destruct (Hall _ _ Hw') as (th & -> & Hph).
      apply at_phase_intro; assumption. }
  rewrite Hcount, Z.eqb_refl in Hw. simpl in Hw. rewrite list_lookup_imap in Hw.
  destruct (st_threads st !! w) as [o0|] eqn:E0; [|discriminate].
  destruct (Hall _ _ E0) as (th & -> & Hph).
  pose proof (at_phase_intro p th Hp Hph) as Hat.
  cbn [fmap option_fmap option_map] in Hw. rewrite Hat in Hw.
  cbn [fmap option_fmap option_map] in Hw. injection Hw as <-.
  exists th. auto.
Qed.

Lemma open_barrier_none count p next st :
  (forall w o, st_threads st !! w = Some o -> at_phase p o = false) ->
  open_barrier count p next st = st.
Proof.
  intros Hno. unfold open_barrier.
  destruct (barrier_release _ _ _ _) as [ths'|] eqn:E; [|reflexivity].
  apply barrier_release_none in E; [|exact Hno]. subst ths'. destruct st; reflexivity.
Qed.

Lemma run_threads_idle ws : forall st,
  (forall w th i, st_threads st !! w = Some (Some th) -> th_phase th <> Loop i) ->
  fold_left (fun s w => copy_loop (thread_fuel s w) w s) ws st = st.
Proof.
  induction ws as [|w ws IH]; intros st Hidle; simpl; [reflexivity|].
  rewrite copy_loop_idle by (intros th i; apply Hidle). apply IH. exact Hidle.
Qed.

Lemma run_threads_midway S m : forall n st,
  S mod 16 = 0 -> 0 <= S <= 2 ^ 32 - 16 ->
  midway S n (st_threads st) ->
  length (st_threads st) = (n + m)%nat ->
  let st' := fold_left (fun s w => copy_loop (thread_fuel s w) w s) (seq n m) st in
  midway S (n + m) (st_threads st') /\ length (st_threads st') = (n + m)%nat.
Proof.
  induction m as [|m IH]; intros n st HS16 HS Hh Hlen; simpl.
  { rewrite Nat.add_0_r in *. auto. }
  destruct (lookup_lt_is_Some_2 (st_threads st) n ltac:(lia)) as [o Ho].
  destruct (Hh _ _ Ho) as (th & -> & Hsz & Hp).
  assert (exists th', th_phase th' = Barrier2 /\ arg_size (th_arg th') = S /\
          st_threads (copy_loop (thread_fuel st n) n st) =
          <[n := Some th']> (st_threads st)) as (th' & Hp' & Hsz' & Hrun).
  { destruct Hp as [Hp | (_ & i & Hp & Hi & Hi16)].
    - exists th. split; [exact Hp|]. split; [exact Hsz|].
      rewrite copy_loop_idle.
      + rewrite list_insert_id; [reflexivity|exact Ho].
      + intros th0 i Hw. rewrite Ho in Hw. injection Hw as <-. congruence.
    - exists (set_phase Barrier2 th). split; [reflexivity|]. split; [exact Hsz|].
      eapply copy_loop_done; eauto; rewrite ?Hsz; try lia; try assumption.
      unfold thread_fuel. rewrite Ho, Hsz.
      assert ((S - i) / 16 <= S / 16) by (apply Z.div_le_mono; lia).
      assert (0 <= S / 16) by (apply Z.div_pos; lia). lia. }
  replace (n + Datatypes.S m)%nat with (Datatypes.S n + m)%nat by lia.
  apply IH; auto.
  - rewrite Hrun. intros w o Hw.
    destruct (decide (n = w)) as [<-|Hne].
    + rewrite list_lookup_insert_eq in Hw by lia. injection Hw as <-.
      eexists; split; [reflexivity|]. auto.
    + rewrite list_lookup_insert_ne in Hw by exact Hne.
      destruct (Hh _ _ Hw) as (th0 & -> & Hsz0 & Hp0).
      eexists; split; [reflexivity|]. split; [exact Hsz0|].
      destruct Hp0 as [Hp0 | (Hle & Hp0)]; [left; exact Hp0|right].
      split; [lia|exact Hp0].
  - rewrite Hrun, length_insert. lia.
Qed.

Section Created.
Variables (count : Z) (el : Z -> float).

Lemma created_step st st' :
  step count el st st' ->
  (forall w o, st_threads st !! w = Some o -> is_Some o) ->
  forall w o, st_threads st' !! w = Some o -> is_Some o.
Proof.
  intros Hstep Hall w o Hw.
  destruct Hstep as [st ths' Hrel | st w0 th th' b' ev Hw0 Hls | st ths' Hrel]; simpl in Hw.
  - destruct (barrier_release_lookup _ _ _ _ _ _ _ Hrel Hw)
      as (o0 & Ho0 & [[_ ->] | (th & -> & _ & ->)]); [apply (Hall _ _ Ho0)|eauto].
  - destruct (decide (w0 = w)) as [<-|Hne].
    + rewrite list_lookup_insert_eq in Hw by (eapply lookup_lt_Some; eauto).
      injection Hw as <-. eauto.
    + rewrite list_lookup_insert_ne in Hw by exact Hne. apply (Hall _ _ Hw).
  - destruct (barrier_release_lookup _ _ _ _ _ _ _ Hrel Hw)
      as (o0 & Ho0 & [[_ ->] | (th & -> & _ & ->)]); [apply (Hall _ _ Ho0)|eauto].
Qed.

Lemma created_steps st st' :
  rtc (step count el) st st' ->
  (forall w o, st_threads st !! w = Some o -> is_Some o) ->
  forall w o, st_threads st' !! w = Some o -> is_Some o.
Proof.
  induction 1 as [st|st st1 st2 Hstep _ IH]; intros Hall; [exact Hall|].
  apply IH. eapply created_step; eauto.
Qed.

End Created.

(** X3. A trial can always finish. For every array length and every
    [T <= 288] with all threads created, from any state the trial can
    reach, under any interleaving, running the remaining loop passes and
    opening the barriers leads to the state in which every worker has
    exited: no interleaving blocks, and no loop spins, since [main] only
    hands out sizes that are multiples of 16 below 2^32. *)
Theorem no_deadlock A env T k a b st :
  T <= MAX_THREADS ->
  (forall x, 0 <= x < T -> create_ok env k x = true) ->
  rtc (step (barrier_count T) (elapsed env k)) (trial_init a b (spawned A env T k)) st ->
  let st' := run_trial (barrier_count T) (elapsed env k) st in
  rtc (step (barrier_count T) (elapsed env k)) st st' /\ all_exited st'.
Proof.
  intros HT Hc Hst st'. split; [apply run_trial_steps|].
  pose proof (chunk_size_range A T) as HS.
  pose proof (chunk_size_mod16 A T) as HS16.
  set (S := chunk_size A T) in *.
  pose proof (trial_inv_steps A T _ _ a b _ _ _ Hst (trial_inv_init A env T k a b))
    as (_ & Hlen & Hth & _).
  destruct (barrier_inv_steps T (elapsed env k) b _ _ HT Hst) as [Hinv _].
  { simpl. rewrite spawned_length. lia. }
  { left. split; [reflexivity|]. split; [reflexivity|].
    intros w th Hw. simpl in Hw. apply spawned_lookup in Hw as [_ Hw].
    unfold thread_of in Hw. destruct (create_ok env k _); [|discriminate].
    injection Hw as ->. reflexivity. }
  assert (forall w o, st_threads st !! w = Some o -> is_Some o) as Hall.
  { eapply created_steps; [exact Hst|]. intros w o Hw. simpl in Hw.
    apply spawned_lookup in Hw as [Hlt ->]. unfold thread_of.
    destruct (Z.le_gt_cases 0 (Z.of_nat w)); [|lia].
    rewrite Hc by lia. eauto. }
  assert (st_threads st <> [] -> Z.of_nat (length (st_threads st)) = barrier_count T) as Hcount.
  { intros Hne. destruct (st_threads st); [congruence|]. simpl in *.
    rewrite barrier_count_small; lia. }
  (* from the loops on *)
  assert (forall st1,
    length (st_threads st1) = length (st_threads st) ->
    midway S 0 (st_threads st1) ->
    all_exited (open_barrier (barrier_count T) Barrier2 (finish (elapsed env k))
      (fold_left (fun s w => copy_loop (thread_fuel s w) w s)
         (seq 0 (length (st_threads st1))) st1))) as Hfinish.
  { intros st1 Hl1 Hm1.
    destruct (run_threads_midway S (length (st_threads st1)) 0 st1 HS16 HS Hm1 eq_refl)
      as [Hm2 Hl2]. simpl Nat.add in *.
    set (st2 := fold_left _ _ st1) in *.
    assert (forall w o, st_threads st2 !! w = Some o ->
              exists th, o = Some th /\ th_phase th = Barrier2) as H2.
    { intros w o Hw. destruct (Hm2 _ _ Hw) as (th & -> & _ & [Hp | (Hle & _)]); [eauto|].
      apply lookup_lt_Some in Hw. lia. }
    intros w o Hw.
    destruct (open_barrier_all (barrier_count T) Barrier2 (finish (elapsed env k)) st2)
      with (w := w) (o := o) as (th & _ & ->); [discriminate| |exact H2|exact Hw|].
    - intros Hne. rewrite Hl2, Hl1. apply Hcount.
      intros Hnil. rewrite Hnil in Hl1. rewrite Hl1 in Hl2.
      destruct (st_threads st2); [congruence|discriminate].
    - eexists; split; reflexivity. }
  unfold st', run_trial.
  destruct Hinv as [(_ & _ & Hb1) | [Hcp | Hex]].
  - (* nobody has started *)
    set (st1 := open_barrier (barrier_count T) Barrier1 start_loop st).
    destruct (open_barrier_frame (barrier_count T) Barrier1 start_loop st) as (_ & _ & _ & Hl1).
    apply Hfinish; [exact Hl1|].
    intros w o Hw.
    destruct (open_barrier_all (barrier_count T) Barrier1 start_loop st)
      with (w := w) (o := o) as (th & Hw0 & ->); [discriminate|exact Hcount| |exact Hw|].
    + intros w' o' Hw'. destruct (Hall _ _ Hw') as [th' ->]. eauto.
    + destruct (Hth _ _ Hw0) as (_ & _ & Hsz & _).
      eexists; split; [reflexivity|]. split; [exact Hsz|]. right.
      split; [lia|]. exists 0. simpl. split; [reflexivity|]. split; [lia|reflexivity].
  - (* between the barriers *)
    rewrite (open_barrier_none _ Barrier1 start_loop st).
    2:{ intros w o Hw. destruct (Hcp _ _ Hw) as (th & -> & [Hp | [i Hp]]);
          simpl; rewrite Hp; reflexivity. }
    apply Hfinish; [reflexivity|].
    intros w o Hw. destruct (Hcp _ _ Hw) as (th & -> & Hp).
    destruct (Hth _ _ Hw) as (_ & _ & Hsz & _ & Hph).
    eexists; split; [reflexivity|]. split; [exact Hsz|].
    destruct Hp as [Hp | [i Hp]]; [left; exact Hp|right].
    split; [lia|]. exists i. rewrite Hp in Hph. destruct Hph as (Hi & Hi16 & _). auto.
  - (* all have exited *)
    assert (forall p, p <> Exited -> forall w o, st_threads st !! w = Some o ->
              at_phase p o = false) as Hno.
    { intros p Hp w o Hw. destruct (Hex _ _ Hw) as (th & -> & Hph).
      simpl. rewrite Hph. destruct p; congruence. }
    rewrite (open_barrier_none _ Barrier1 start_loop st) by (apply Hno; discriminate).
    rewrite run_threads_idle.
    2:{ intros w th i Hw. destruct (Hex _ _ Hw) as (th0 & [= <-] & Hph). congruence. }
    rewrite open_barrier_none by (apply Hno; discriminate). exact Hex.
Qed.

(** From the state in which worker 2 has made one pass, on 2^33 elements. *)
Lemma no_deadlock_witness :
  let st := early_state (fun _ => 0) (fun _ => 0) in
  let st' := run_trial (barrier_count 3) (elapsed (env_ok 3) 0) st in
  rtc (step (barrier_count 3) (elapsed (env_ok 3) 0)) st st' /\ all_exited st'.
Proof.
  apply (no_deadlock (2 ^ 33) (env_ok 3) 3 0 (fun _ => 0) (fun _ => 0)).
  - unfold MAX_THREADS. lia.
  - reflexivity.
  - apply early_state_reachable.
Defined.

(** ** Schedules *)

Lemma final_example_reachable :
  rtc (step (barrier_count 2) (elapsed (env_ok 2) 0))
    (trial_init (fun j => j) (fun _ => 0) (spawned 64 (env_ok 2) 2 0)) final_example.
Proof. apply run_trial_steps. Qed.

Lemma other_example_reachable :
  rtc (step (barrier_count 2) (elapsed (env_ok 2) 0))
    (trial_init (fun j => j) (fun _ => 0) (spawned 64 (env_ok 2) 2 0)) other_example.
Proof.
  unfold other_example.
  etrans; [apply open_barrier1_steps|].
  etrans; [apply (copy_loop_steps _ _ 1 1)|].
  etrans; [apply (copy_loop_steps _ _ 5 0)|].
  etrans; [apply (copy_loop_steps _ _ 5 1)|].
  apply open_barrier2_steps.
Qed.

Lemma final_example_log :
  st_log final_example =
  [VLoad 0 ArrA 0; VStore 0 ArrB 0; VLoad 0 ArrA 16; VStore 0 ArrB 16;
   VLoad 1 ArrA 32; VStore 1 ArrB 32; VLoad 1 ArrA 48; VStore 1 ArrB 48].
Proof. reflexivity. Qed.

Lemma other_example_log :
  st_log other_example =
  [VLoad 1 ArrA 32; VStore 1 ArrB 32; VLoad 0 ArrA 0; VStore 0 ArrB 0;
   VLoad 0 ArrA 16; VStore 0 ArrB 16; VLoad 1 ArrA 48; VStore 1 ArrB 48].
Proof. reflexivity. Qed.

Lemma example_exited st :
  length (st_threads st) = 2%nat ->
  (forall w, (w < 2)%nat ->
     match st_threads st !! w with
     | Some (Some th) => th_phase th = Exited
     | _ => False
     end) ->
  all_exited st.
Proof.
  intros Hlen H w o Hw. pose proof (lookup_lt_Some _ _ _ Hw) as Hlt.
  rewrite Hlen in Hlt. specialize (H w Hlt). rewrite Hw in H.
  destruct o as [th|]; [eauto|contradiction].
Qed.

Lemma final_example_exited : all_exited final_example.
Proof.
  apply example_exited; [reflexivity|].
  intros [|[|w]] Hw; [reflexivity|reflexivity|lia].
Qed.

Lemma other_example_exited : all_exited other_example.
Proof.
  apply example_exited; [reflexivity|].
  intros [|[|w]] Hw; [reflexivity|reflexivity|lia].
Qed.

(** X4. The result of a trial does not depend on the schedule: two
    interleavings of the same trial that both run to the end leave [a]
    as it was and leave the same [b], for every array length (also where
    the views of the workers overlap). *)
Theorem schedule_independent A env T k a b tr ths st1 st2 :
  spawn A env T k = (tr, Ok ths) ->
  rtc (step (barrier_count T) (elapsed env k)) (trial_init a b ths) st1 ->
  rtc (step (barrier_count T) (elapsed env k)) (trial_init a b ths) st2 ->
  all_exited st1 -> all_exited st2 ->
  st_a st1 = a /\ st_a st2 = a /\ forall j, st_b st1 j = st_b st2 j.
Proof.
  intros Hsp H1 H2 Hex1 Hex2.
  destruct (trial_reachable _ _ _ _ _ _ _ _ _ Hsp H1) as (Ha1 & _).
  destruct (trial_reachable _ _ _ _ _ _ _ _ _ Hsp H2) as (Ha2 & _).
  split; [exact Ha1|]. split; [exact Ha2|].
  exact (final_memory_unique A env T k a b tr ths st1 st2 Hsp H1 H2 Hex1 Hex2).
Qed.

(** Two schedules of the trial on 64 elements with 2 workers: the
    accesses come in different orders, the memory is the same. *)
Lemma schedule_independent_witness :
  st_log final_example <> st_log other_example /\
  st_b final_example 40 = st_b other_example 40.
Proof.
  destruct (spawn_spec 64 (env_ok 2) 2 0 ltac:(unfold MAX_THREADS; lia)) as (tr & Hsp & _).
  split; [rewrite final_example_log, other_example_log; discriminate|].
  exact (proj2 (proj2 (schedule_independent 64 (env_ok 2) 2 0 _ _ tr _ _ _ Hsp
           final_example_reachable other_example_reachable
           final_example_exited other_example_exited)) 40).
Defined.

(** X5. No element is shared. For [0 <= A < 2^32], at any moment of a
    trial and for any interleaving, two vector accesses made by
    different workers have no element in common. *)
Theorem race_free A T env k a b tr ths st :
  0 <= A < 2 ^ 32 ->
  spawn A env T k = (tr, Ok ths) ->
  rtc (step (barrier_count T) (elapsed env k)) (trial_init a b ths) st ->
  forall e1 e2 j, e1 ∈ st_log st -> e2 ∈ st_log st ->
    access_worker e1 <> access_worker e2 ->
    touches e1 j -> ~ touches e2 j.
Proof.
  intros HA Hsp Hst e1 e2 j H1 H2 Hne Ht1 Ht2.
  destruct (trial_reachable _ _ _ _ _ _ _ _ _ Hsp Hst) as (_ & _ & _ & _ & Hlog).
  pose proof (access_ok_small A T e1 j HA (elem_of_log _ _ _ _ Hlog H1) Ht1) as [R1 _].
  pose proof (access_ok_small A T e2 j HA (elem_of_log _ _ _ _ Hlog H2) Ht2) as [R2 _].
  apply Hne. apply Nat2Z.inj. nia.
Qed.

(** 64 elements, 2 threads, worker 1 starting first: the last store of
    worker 0 touches element 31, the first load of worker 1 does not. *)
Lemma race_free_witness :
  VStore 0 ArrB 16 ∈ st_log other_example /\ VLoad 1 ArrA 32 ∈ st_log other_example /\
  touches (VStore 0 ArrB 16) 31 /\ ~ touches (VLoad 1 ArrA 32) 31.
Proof.
  assert (0 <= 64 < 2 ^ 32) as HA by lia.
  destruct (spawn_spec 64 (env_ok 2) 2 0 ltac:(unfold MAX_THREADS; lia)) as (tr & Hsp & _).
  assert (VStore 0 ArrB 16 ∈ st_log other_example) as H1
    by (rewrite other_example_log; do 5 right; left).
  assert (VLoad 1 ArrA 32 ∈ st_log other_example) as H2
    by (rewrite other_example_log; left).
  assert (touches (VStore 0 ArrB 16) 31) as Ht by (unfold touches; simpl; lia).
  split; [exact H1|]. split; [exact H2|]. split; [exact Ht|].
  apply (race_free 64 2 (env_ok 2) 0 _ _ tr _ _ HA Hsp other_example_reachable
           (VStore 0 ArrB 16) (VLoad 1 ArrA 32) 31 H1 H2); [discriminate|exact Ht].
Defined.

(** ** [copy] on an arbitrary argument *)

Lemma copied_spec size :
  size <= copied size < size + 16 /\ copied size mod 16 = 0.
Proof.
  unfold copied.
  pose proof (Z.div_mod (size + 15) 16 ltac:(lia)).
  pose proof (Z.mod_pos_bound (size + 15) 16 ltac:(lia)).
  split; [lia|]. rewrite Z.mul_comm. apply Z.mod_mul. lia.
Qed.

Lemma copied_next i size :
  i mod 16 = 0 -> i < size -> i + 16 <= copied size.
Proof.
  intros Hi Hlt. destruct (copied_spec size) as [Hc Hc16].
  apply Z.mod_divide in Hi as [p ->]; [|lia].
  apply Z.mod_divide in Hc16 as [q Hq]; [|lia]. lia.
Qed.

Lemma copied_last i size :
  i mod 16 = 0 -> size <= i <= copied size -> i = copied size.
Proof.
  intros Hi Hle. destruct (copied_spec size) as [Hc Hc16].
  apply Z.mod_divide in Hi as [p ->]; [|lia].
  apply Z.mod_divide in Hc16 as [q Hq]; [|lia]. lia.
Qed.

Lemma copy_loop_solo fuel : forall st th i,
  st_threads st = [Some th] ->
  th_phase th = Loop i ->
  0 <= arg_size (th_arg th) <= 2 ^ 32 - 16 ->
  0 <= i <= copied (arg_size (th_arg th)) -> i mod 16 = 0 ->
  (copied (arg_size (th_arg th)) - i) / 16 < Z.of_nat fuel ->
  let st' := copy_loop fuel 0 st in
  st_threads st' = [Some (set_phase Barrier2 th)] /\
  st_a st' = st_a st /\
  forall j, st_b st' j =
    if (arg_b (th_arg th) + i <=? j) && (j <? arg_b (th_arg th) + copied (arg_size (th_arg th)))
    then st_a st (arg_a (th_arg th) + (j - arg_b (th_arg th)))
    else st_b st j.
Proof.
  induction fuel as [|fuel IH]; intros st th i Hths Hph Hsize Hi Hi16 Hfuel.
  { exfalso. assert (0 <= (copied (arg_size (th_arg th)) - i) / 16)
      by (apply Z.div_pos; lia). simpl in Hfuel. lia. }
  destruct (copied_spec (arg_size (th_arg th))) as [Hc Hc16].
  cbv zeta. cbn [copy_loop]. rewrite Hths. cbn [lookup list_lookup].
  unfold copy_step. rewrite Hph.
  destruct (i <? arg_size (th_arg th)) eqn:Hlt.
  - apply Z.ltb_lt in Hlt.
    pose proof (copied_next _ _ Hi16 Hlt) as Hnext.
    assert (to_uint32 (i + 16) = i + 16) as Hu
      by (unfold to_uint32; apply Z.mod_small; lia).
    rewrite Hu.
    match goal with |- context [copy_loop fuel 0 ?s] => set (st1 := s) end.
    assert ((i + 16) mod 16 = 0) as Hn16.
    { rewrite <- Z.add_mod_idemp_l, Hi16 by lia. reflexivity. }
    assert ((copied (arg_size (th_arg th)) - (i + 16)) / 16 < Z.of_nat fuel) as Hfuel'.
    { replace (copied (arg_size (th_arg th)) - (i + 16))
        with (copied (arg_size (th_arg th)) - i + (-1) * 16) by lia.
      rewrite Z.div_add by lia. lia. }
    destruct (IH st1 (set_phase (Loop (i + 16)) th) (i + 16)) as (Ht & Ha & Hb);
      [reflexivity|reflexivity|exact Hsize|simpl; lia|exact Hn16|exact Hfuel'|].
    simpl in Ht, Ha, Hb. split; [exact Ht|]. split; [exact Ha|].
    intros j. rewrite Hb. unfold st1. cbn [st_a st_b]. rewrite stream_load.
    set (pb := arg_b (th_arg th)). set (pa := arg_a (th_arg th)).
    set (n := copied (arg_size (th_arg th))) in *.
    destruct ((pb + (i + 16) <=? j) && (j <? pb + n)) eqn:E1;
    destruct ((pb + i <=? j) && (j <? pb + n)) eqn:E2;
    destruct ((pb + i <=? j) && (j <? pb + i + 16)) eqn:E3;
      try reflexivity;
      rewrite ?andb_true_iff, ?andb_false_iff, ?Z.leb_le, ?Z.ltb_lt, ?Z.leb_gt, ?Z.ltb_ge in *;
      try lia.
    f_equal. lia.
  - apply Z.ltb_ge in Hlt.
    assert (i = copied (arg_size (th_arg th))) as Hlast
      by (apply copied_last; [exact Hi16|lia]).
    rewrite (copy_loop_idle fuel 0).
    2:{ intros th0 i0 Hw. simpl in Hw. injection Hw as <-. discriminate. }
    cbn [st_threads st_a st_b]. split; [reflexivity|]. split; [reflexivity|].
    intros j. rewrite <- Hlast.
    destruct ((arg_b (th_arg th) + i <=? j) && (j <? arg_b (th_arg th) + i)) eqn:E;
      [|reflexivity].
    rewrite andb_true_iff, Z.leb_le, Z.ltb_lt in E. lia.
Qed.

Lemma copy_loop_wraps fuel : forall st th i,
  st_threads st = [Some th] ->
  th_phase th = Loop i ->
  2 ^ 32 - 16 < arg_size (th_arg th) ->
  0 <= i < 2 ^ 32 -> i mod 16 = 0 ->
  let st' := copy_loop fuel 0 st in
  (exists th' i', st_threads st' = [Some th'] /\ th_phase th' = Loop i') /\
  length (st_log st') = (length (st_log st) + 2 * fuel)%nat.
Proof.
  induction fuel as [|fuel IH]; intros st th i Hths Hph Hsize Hi Hi16.
  { simpl. split; [eauto|lia]. }
  cbv zeta. cbn [copy_loop]. rewrite Hths. cbn [lookup list_lookup].
  unfold copy_step. rewrite Hph.
  assert (i <= 2 ^ 32 - 16) as Hmax.
  { apply Z.mod_divide in Hi16 as [p ->]; lia. }
  destruct (i <? arg_size (th_arg th)) eqn:Hlt; [|apply Z.ltb_ge in Hlt; lia].
  match goal with |- context [copy_loop fuel 0 ?s] => set (st1 := s) end.
  assert (0 <= to_uint32 (i + 16) < 2 ^ 32) as Hr
    by (unfold to_uint32; apply Z.mod_pos_bound; lia).
  assert (to_uint32 (i + 16) mod 16 = 0) as Hn16.
  { unfold to_uint32. change (2 ^ 32) with (16 * 2 ^ 28).
    rewrite Z.rem_mul_r by lia.
    rewrite Z.mul_comm, Z.mod_add by lia. rewrite Z.mod_mod by lia.
    rewrite <- Z.add_mod_idemp_l, Hi16 by lia. reflexivity. }
  destruct (IH st1 (set_phase (Loop (to_uint32 (i + 16))) th) (to_uint32 (i + 16)))
    as (Ht & Hl); [reflexivity|reflexivity|exact Hsize|exact Hr|exact Hn16|].
  split; [exact Ht|]. simpl in Hl. rewrite Hl. unfold st1. simpl.
    rewrite length_app. simpl. lia.
Qed.

(** X6. [copy] rounds its size up. Called with a size of at most
    2^32 - 16, the loop of [copy] ends and has moved [size] rounded up to
    the next multiple of 16: the elements [0 .. n-1] of its view of [b]
    are those of its view of [a], where [size <= n < size + 16], and
    nothing else has changed. With a size that is not a multiple of 16
    it reads and writes up to 15 elements past the end of the views. *)
Theorem copy_rounds_up arg a b fuel :
  0 <= arg_size arg <= 2 ^ 32 - 16 ->
  copied (arg_size arg) / 16 < Z.of_nat fuel ->
  let n := copied (arg_size arg) in
  let st' := copy_loop fuel 0 (solo arg a b) in
  arg_size arg <= n < arg_size arg + 16 /\ n mod 16 = 0 /\
  (exists th, st_threads st' = [Some th] /\ th_phase th = Barrier2) /\
  st_a st' = a /\
  forall j, st_b st' j =
    if (arg_b arg <=? j) && (j <? arg_b arg + n) then a (arg_a arg + (j - arg_b arg))
    else b j.
Proof.
  intros Hsize Hfuel n st'.
  destruct (copied_spec (arg_size arg)) as [Hc Hc16].
  split; [exact Hc|]. split; [exact Hc16|].
  destruct (copy_loop_solo fuel (solo arg a b) _ 0 eq_refl eq_refl) as (Ht & Ha & Hb);
    [exact Hsize|simpl; lia|reflexivity|simpl; rewrite Z.sub_0_r; exact Hfuel|].
  split; [eexists; split; [exact Ht|reflexivity]|]. split; [exact Ha|].
  intros j. fold st'. rewrite Hb. simpl. rewrite Z.add_0_r. reflexivity.
Qed.

(** A size of 40: 48 elements are moved, among them element 47. *)
Lemma copy_rounds_up_witness :
  let st' := copy_loop 5 0 (solo arg_odd (fun j => j) (fun _ => 0)) in
  copied 40 = 48 /\ st_b st' 47 = 47 /\ st_b st' 48 = 0.
Proof.
  assert (0 <= arg_size arg_odd <= 2 ^ 32 - 16) as Hs by (simpl; lia).
  assert (copied (arg_size arg_odd) / 16 < Z.of_nat 5) as Hf by (vm_compute; reflexivity).
  pose proof (copy_rounds_up arg_odd (fun j => j) (fun _ => 0) 5 Hs Hf)
    as (_ & _ & _ & _ & Hb).
  split; [reflexivity|]. split; rewrite Hb; reflexivity.
Defined.

(** X7. Called with a size above 2^32 - 16, [copy] never leaves its
    loop: the 32-bit counter [i] wraps before it can reach [size], and
    every pass makes one load and one store. *)
Theorem copy_never_exits arg a b fuel :
  2 ^ 32 - 16 < arg_size arg ->
  let st' := copy_loop fuel 0 (solo arg a b) in
  (exists th i, st_threads st' = [Some th] /\ th_phase th = Loop i) /\
  length (st_log st') = (2 * fuel)%nat.
Proof.
  intros Hsize.
  apply (copy_loop_wraps fuel (solo arg a b) _ 0 eq_refl eq_refl);
    [exact Hsize|lia|reflexivity].
Qed.

(** A size of 2^32 - 8: after three passes the loop is still running. *)
Lemma copy_never_exits_witness :
  let st' := copy_loop 3 0 (solo arg_huge (fun j => j) (fun _ => 0)) in
  (exists th i, st_threads st' = [Some th] /\ th_phase th = Loop i) /\
  length (st_log st') = 6%nat.
Proof.
  apply (copy_never_exits arg_huge (fun j => j) (fun _ => 0) 3). simpl. lia.
Defined.

(** ** The memory after the trials *)

Lemma final_memory A env T k a b st :
  0 <= A < 2 ^ 32 ->
  trial_inv A T (attr_of env k) (elapsed env k) a b st -> all_exited st ->
  forall j, st_b st j =
    if (0 <=? j) && (j <? T * chunk_size A T) then a j else b j.
Proof.
  intros HA (Ha & Hlen & Hth & Hb & _) Hex j.
  pose proof (chunk_size_range A T) as HS.
  destruct ((0 <=? j) && (j <? T * chunk_size A T)) eqn:E.
  - apply andb_true_iff in E as [E1 E2]. apply Z.leb_le in E1. apply Z.ltb_lt in E2.
    assert (0 < chunk_size A T /\ 1 <= T) as [HS0 HT] by nia.
    set (S := chunk_size A T) in *.
    assert (0 <= j / S < T) as Hw.
    { split; [apply Z.div_pos; lia|apply Z.div_lt_upper_bound; lia]. }
    pose proof (Z.div_mod j S ltac:(lia)) as Hdm.
    pose proof (Z.mod_pos_bound j S ltac:(lia)) as Hm.
    destruct (lookup_lt_is_Some_2 (st_threads st) (Z.to_nat (j / S)) ltac:(lia)) as [o Ho].
    destruct (Hex _ _ Ho) as (th & -> & Hp).
    destruct (Hth _ _ Ho) as (_ & _ & _ & _ & Hph). rewrite Hp in Hph.
    destruct Hph as [Hcopy _]. rewrite Z2Nat.id in Hcopy by lia.
    rewrite chunk_start_small in Hcopy by lia. fold S in Hcopy.
    specialize (Hcopy (j mod S) Hm).
    replace (j / S * S + j mod S) with j in Hcopy by lia. exact Hcopy.
  - destruct (Hb j) as [Hj | [_ Hc]]; [exact Hj|].
    apply covered_small in Hc as (w & Hw & Hr); [|exact HA].
    apply andb_false_iff in E. rewrite Z.leb_gt, Z.ltb_ge in E. nia.
Qed.

Lemma trial_memory A env T k m tr m' t :
  0 <= A < 2 ^ 32 -> 0 <= T <= MAX_THREADS ->
  (forall x, 0 <= x < T -> create_ok env k x = true) ->
  a_ok m = true -> b_ok m = true ->
  trial A env T k m = (tr, Ok (m', t)) ->
  a_ok m' = true /\ b_ok m' = true /\ arr_a m' = arr_a m /\
  forall j, arr_b m' j =
    if (0 <=? j) && (j <? T * chunk_size A T) then arr_a m j else arr_b m j.
Proof.
  intros HA HT Hc Hoka Hokb Htrial.
  destruct (trial_returns A env T k m HT Hc Hoka Hokb)
    as (tr' & m1 & Heq & Ha1 & Hb1 & _ & Harr_a & Harr_b).
  rewrite Htrial in Heq. injection Heq as _ <- _.
  split; [exact Ha1|]. split; [exact Hb1|]. split; [exact Harr_a|].
  intros j. rewrite Harr_b. apply (final_memory A env T k); [exact HA| |].
  - eapply trial_inv_steps; [apply run_trial_steps|apply trial_inv_init].
  - apply (run_trial_exits A env T k _ _ HT Hc).
Qed.

Lemma run_trials_memory A n env T m tr m' times :
  0 <= A < 2 ^ 32 -> 0 <= T <= MAX_THREADS ->
  (forall k x, 0 <= k < NTIMES n -> 0 <= x < T -> create_ok env k x = true) ->
  a_ok m = true -> b_ok m = true ->
  run_trials A n env T m = (tr, Ok (m', times)) ->
  arr_a m' = arr_a m /\
  forall j, arr_b m' j =
    if (0 <=? j) && (j <? T * chunk_size A T) then arr_a m j else arr_b m j.
Proof.
  intros HA HT Hc Hoka Hokb Hrun. unfold run_trials in Hrun.
  pose proof (NTIMES_ge_2 n) as HN.
  destruct (for_loop_partial
    (fun k (s : memory * list float) =>
       0 <= k <= NTIMES n /\ a_ok s.1 = true /\ b_ok s.1 = true /\
       arr_a s.1 = arr_a m /\
       forall j, arr_b s.1 j =
         if (1 <=? k) && ((0 <=? j) && (j <? T * chunk_size A T))
         then arr_a m j else arr_b m j)
    (fun k => k <? NTIMES n) (trials_body A env T) (Z.to_nat (NTIMES n)))
    with (x := 0) (s := (m, @nil float)) (tr := tr) (s' := (m', times))
    as (k & (Hk & _ & _ & Ha & Hb) & Hcond).
  - intros k [m1 ts] tr1 [m2 ts2] Hcond Hbody (Hk & Ha1 & Hb1 & Harr & Hm).
    apply Z.ltb_lt in Hcond. unfold trials_body in Hbody. cbn [fst snd] in *.
    destruct (trial A env T k m1) as [tr0 [[m3 t]| |]] eqn:Htr; simpl in Hbody;
      try discriminate.
    injection Hbody as _ <- _.
    destruct (trial_memory _ _ _ _ _ _ _ _ HA HT (fun x => Hc k x ltac:(lia)) Ha1 Hb1 Htr)
      as (Ha3 & Hb3 & Harr3 & Hm3).
    split; [lia|]. split; [exact Ha3|]. split; [exact Hb3|].
    split; [congruence|]. intros j. rewrite Hm3, Hm, Harr.
    replace (1 <=? k + 1) with true by (symmetry; apply Z.leb_le; lia).
    destruct ((0 <=? j) && (j <? T * chunk_size A T)); [reflexivity|].
    rewrite andb_false_r. reflexivity.
  - simpl. repeat split; auto; try lia.
  - exact Hrun.
  - cbn [fst snd] in *. apply Z.ltb_ge in Hcond. split; [exact Ha|].
    intros j. rewrite Hb.
    replace (1 <=? k) with true by (symmetry; apply Z.leb_le; lia). reflexivity.
Qed.

(** X8. The trials repeat the same work. For [0 <= A < 2^32] and
    [0 <= T <= 288], a trial that follows another trial changes neither
    array: all the trials after the first leave the memory as they
    found it. *)
Theorem trial_idempotent A env T k k' m tr m1 t1 tr' m2 t2 :
  0 <= A < 2 ^ 32 -> 0 <= T <= MAX_THREADS ->
  (forall x, 0 <= x < T -> create_ok env k x = true) ->
  (forall x, 0 <= x < T -> create_ok env k' x = true) ->
  a_ok m = true -> b_ok m = true ->
  trial A env T k m = (tr, Ok (m1, t1)) ->
  trial A env T k' m1 = (tr', Ok (m2, t2)) ->
  arr_a m2 = arr_a m1 /\ forall j, arr_b m2 j = arr_b m1 j.
Proof.
  intros HA HT Hc Hc' Hoka Hokb H1 H2.
  destruct (trial_memory _ _ _ _ _ _ _ _ HA HT Hc Hoka Hokb H1) as (Ha1 & Hb1 & Harr1 & Hm1).
  destruct (trial_memory _ _ _ _ _ _ _ _ HA HT Hc' Ha1 Hb1 H2) as (_ & _ & Harr2 & Hm2).
  split; [exact Harr2|]. intros j. rewrite Hm2, Hm1, Harr1.
  destruct ((0 <=? j) && (j <? T * chunk_size A T)); reflexivity.
Qed.

(** Trials 0 and 1 on 100 elements with 3 threads. *)
Lemma trial_idempotent_witness :
  exists tr m1 t1 tr' m2 t2,
    trial 100 (env_ok 3) 3 0 mem_example = (tr, Ok (m1, t1)) /\
    trial 100 (env_ok 3) 3 1 m1 = (tr', Ok (m2, t2)) /\
    arr_a m2 = arr_a m1 /\ forall j, arr_b m2 j = arr_b m1 j.
Proof.
  assert (0 <= 100 < 2 ^ 32) as HA by lia.
  assert (0 <= 3 <= MAX_THREADS) as HT by (unfold MAX_THREADS; lia).
  assert (forall k x, 0 <= x < 3 -> create_ok (env_ok 3) k x = true) as Hc
    by reflexivity.
  destruct (trial_returns 100 (env_ok 3) 3 0 mem_example HT (Hc 0) eq_refl eq_refl)
    as (tr & m1 & H1 & Ha1 & Hb1 & _).
  destruct (trial_returns 100 (env_ok 3) 3 1 m1 HT (Hc 1) Ha1 Hb1)
    as (tr' & m2 & H2 & _).
  exists tr, m1, (trial_mean (env_ok 3) 3 0), tr', m2, (trial_mean (env_ok 3) 3 1).
  split; [exact H1|]. split; [exact H2|].
  exact (trial_idempotent 100 (env_ok 3) 3 0 1 mem_example tr m1 _ tr' m2 _
           HA HT (Hc 0) (Hc 1) eq_refl eq_refl H1 H2).
Defined.

(** X9. The arrays after the run. For [0 < A < 2^32], [0 <= T <= 288]
    and all threads created, the initialisation followed by the [NTIMES]
    trials returns, and then every element of [a] is 1.0 and the element
    [j] of [b] is 1.0 below [T*S] and still 2.0 from [T*S] on. *)
Theorem memory_after_run A n env m0 :
  0 < A < 2 ^ 32 -> 0 <= thread_count env <= MAX_THREADS ->
  (forall k x, 0 <= k < NTIMES n -> 0 <= x < thread_count env -> create_ok env k x = true) ->
  a_ok m0 = true -> b_ok m0 = true ->
  let T := thread_count env in
  exists m tr m' times,
    init_arrays A m0 = ([], Ok m) /\
    run_trials A n env T m = (tr, Ok (m', times)) /\
    forall j, 0 <= j < A ->
      arr_a m' j = float_1_0 /\
      arr_b m' j = if j <? T * chunk_size A T then float_1_0 else float_2_0.
Proof.
  intros HA HT Hc Hoka Hokb T.
  destruct (init_arrays_ok A m0 Hoka Hokb) as (m & Hinit & Ha & Hb & _).
  destruct (run_trials_returns A n env T m HT Hc Ha Hb) as (tr & m' & Hrun & _).
  exists m, tr, m', (trial_means n env T).
  split; [exact Hinit|]. split; [exact Hrun|].
  assert (0 <= A < 2 ^ 32) as HA' by lia.
  destruct (run_trials_memory _ _ _ _ _ _ _ _ HA' HT Hc Ha Hb Hrun) as [Harr Hm].
  assert (arr_a m = fill A float_1_0 (arr_a m0) /\ arr_b m = fill A float_2_0 (arr_b m0))
    as [Hfa Hfb].
  { unfold init_arrays in Hinit.
    replace (0 <? A) with true in Hinit by (symmetry; apply Z.ltb_lt; lia).
    rewrite Hoka, Hokb in Hinit. injection Hinit as <-. split; reflexivity. }
  intros j Hj. rewrite Harr, Hm, Hfa, Hfb. unfold fill.
  replace ((0 <=? j) && (j <? A)) with true
    by (symmetry; apply andb_true_iff; rewrite Z.leb_le, Z.ltb_lt; lia).
  replace (0 <=? j) with true by (symmetry; apply Z.leb_le; lia).
  split; reflexivity.
Qed.

(** 100 elements, 3 threads: elements 96 to 99 of [b] keep 2.0. *)
Lemma memory_after_run_witness :
  3 * chunk_size 100 3 = 96 /\
  exists m tr m' times,
    init_arrays 100 mem_example = ([], Ok m) /\
    run_trials 100 None (env_ok 3) 3 m = (tr, Ok (m', times)) /\
    forall j, 0 <= j < 100 ->
      arr_a m' j = float_1_0 /\
      arr_b m' j = if j <? 3 * chunk_size 100 3 then float_1_0 else float_2_0.
Proof.
  split; [reflexivity|].
  apply (memory_after_run 100 None (env_ok 3) mem_example).
  - lia.
  - vm_compute. split; discriminate.
  - reflexivity.
  - reflexivity.
  - reflexivity.
Defined.

(** ** The calls of a run *)

Lemma bind_inv_ok {A B} (m : M A) (f : A -> M B) tr y :
  bind m f = (tr, Ok y) ->
  exists tr1 x tr2, m = (tr1, Ok x) /\ f x = (tr2, Ok y) /\ tr = tr1 ++ tr2.
Proof.
  destruct m as [tr1 [x| |]]; simpl; try discriminate.
  destruct (f x) as [tr2 r] eqn:E. intros [= <- ->]. eauto 6.
Qed.











(** ** Edge cases of [main] *)

Lemma ltb_nan_r x : (x <? nan)%float = false.
Proof.
  rewrite ltb_spec. change (Prim2SF nan) with S754_nan.
  unfold SFltb, SFcompare. destruct (Prim2SF x) as [?|?| |? ? ?]; reflexivity.
Qed.

Lemma MIN_nan_r x : MIN x nan = nan.
Proof. unfold MIN. rewrite ltb_nan_r. reflexivity. Qed.

Lemma div_nan_r x : (x / nan)%float = nan.
Proof.
  apply Prim2SF_inj. rewrite div_spec. change (Prim2SF nan) with S754_nan.
  unfold SF64div, SFdiv. destruct (Prim2SF x) as [?|?| |? ? ?]; reflexivity.
Qed.

Lemma fold_MIN_nan l : forall m0,
  l <> [] -> (forall t, t ∈ l -> t = nan) -> fold_left MIN l m0 = nan.
Proof.
  induction l as [|t l IH]; intros m0 Hne Hall; [congruence|].
  simpl. rewrite (Hall t) by left. rewrite MIN_nan_r.
  destruct l as [|t' l']; [reflexivity|].
  apply IH; [discriminate|]. intros t0 Ht0. apply Hall. right. exact Ht0.
Qed.

Lemma trial_mean_zero env k : trial_mean env 0 k = nan.
Proof. reflexivity. Qed.

(** X11. Zero threads. With a thread count of 0 and [a] and [b]
    allocated, for every array length and every [NTIMES], the run
    completes and prints a bandwidth that is not a number: every trial
    time is 0/0. *)
Theorem zero_threads_nan A n env :
  memalign_ok env ArrA = true -> memalign_ok env ArrB = true ->
  thread_count env = 0 ->
  (main A n env).2 = Ok 0 /\ stdout (main A n env).1 = [(0, nan)].
Proof.
  intros Ha Hb HT.
  destruct (main_returns A n env Ha Hb) as [Hres Hout].
  { rewrite HT. unfold MAX_THREADS. lia. }
  { intros k x _ Hx. lia. }
  split; [exact Hres|]. rewrite Hout, HT. do 2 f_equal.
  unfold bandwidth.
  pose proof (NTIMES_ge_2 n) as HN.
  assert (Z.of_nat (length (trial_means n env 0)) = NTIMES n) as Hlen.
  { unfold trial_means. rewrite length_fmap, length_seqZ. lia. }
  destruct (summary_spec n _ Hlen) as (_ & -> & _).
  rewrite fold_MIN_nan; [apply div_nan_r| |].
  - intros Hnil. apply (f_equal length) in Hnil. rewrite length_drop in Hnil.
    simpl in Hnil. lia.
  - intros t Ht. apply list_elem_of_lookup in Ht as [i Hi].
    rewrite lookup_drop in Hi. unfold trial_means in Hi.
    rewrite list_lookup_fmap in Hi.
    destruct (seqZ 0 (NTIMES n) !! _); [|discriminate].
    injection Hi as <-. apply trial_mean_zero.
Qed.

(** The default array length with 0 threads. *)
Lemma zero_threads_nan_witness :
  (main 128000000 None (env_ok 0)).2 = Ok 0 /\
  stdout (main 128000000 None (env_ok 0)).1 = [(0, nan)].
Proof.
  apply (zero_threads_nan 128000000 None (env_ok 0)); reflexivity.
Defined.


Lemma thread_count_wraps env q :
  thread_count (with_argv env (argv1 env + q * 2 ^ 32)) = thread_count env.
Proof.
  unfold thread_count, to_int32. simpl.
  replace (argv1 env + q * 2 ^ 32 + 2 ^ 31) with (argv1 env + 2 ^ 31 + q * 2 ^ 32) by lia.
  rewrite Z.mod_add by lia. reflexivity.
Qed.



(** X13. The thread count is the argument modulo 2^32: [threads] is
    an [int] that receives the result of [atoll]. Two arguments that
    differ by a multiple of 2^32 give the same thread count and, where
    the run completes, the same output and result. *)
Theorem argument_wraps A n env q :
  memalign_ok env ArrA = true -> memalign_ok env ArrB = true ->
  0 <= thread_count env <= MAX_THREADS ->
  (forall k x, 0 <= k < NTIMES n -> 0 <= x < thread_count env ->
     create_ok env k x = true) ->
  thread_count (with_argv env (argv1 env + q * 2 ^ 32)) = thread_count env /\
  observable (main A n (with_argv env (argv1 env + q * 2 ^ 32))) =
  observable (main A n env).
Proof.
  intros Ha Hb HT Hc. pose proof (thread_count_wraps env q) as Hw.
  split; [exact Hw|].
  destruct (main_returns A n env Ha Hb HT Hc) as [Hr Ho].
  destruct (main_returns A n (with_argv env (argv1 env + q * 2 ^ 32)) Ha Hb) as [Hr' Ho'].
  { rewrite Hw. exact HT. }
  { rewrite Hw. exact Hc. }
  unfold observable. rewrite Hr, Ho, Hr', Ho', Hw. reflexivity.
Qed.

(** The argument 4294967298 runs as 2 threads. *)
Lemma argument_wraps_witness :
  thread_count (with_argv (env_ok 2) 4294967298) = 2 /\
  observable (main 64 None (with_argv (env_ok 2) 4294967298)) =
  observable (main 64 None (env_ok 2)).
Proof.
  apply (argument_wraps 64 None (env_ok 2) 1).
  - reflexivity.
  - reflexivity.
  - vm_compute. split; discriminate.
  - reflexivity.
Defined.

(** ** [checktick] *)

Lemma MIN_MAX_int_range x d : 0 <= x <= 1000000 -> 0 <= MIN_int x (MAX_int d 0) <= 1000000.
Proof.
  unfold MIN_int, MAX_int. intros Hx.
  destruct (0 <? d) eqn:E1; [apply Z.ltb_lt in E1|apply Z.ltb_ge in E1];
  destruct (x <? _) eqn:E2; [apply Z.ltb_lt in E2|apply Z.ltb_ge in E2| |]; lia.
Qed.

Lemma MIN_MAX_int_le x d : MIN_int x (MAX_int d 0) <= x /\ MIN_int x (MAX_int d 0) <= Z.max d 0.
Proof.
  unfold MIN_int, MAX_int.
  destruct (0 <? d) eqn:E1; [apply Z.ltb_lt in E1|apply Z.ltb_ge in E1];
  destruct (x <? _) eqn:E2; [apply Z.ltb_lt in E2|apply Z.ltb_ge in E2| |]; lia.
Qed.

Lemma silent_int_of_double x : (int_of_double x).1 = [].
Proof.
  unfold int_of_double. destruct (Prim2SF x) as [?|?| |s m e]; try reflexivity.
  cbv zeta. destruct (_ && _); reflexivity.
Qed.

Lemma silent_tick_wait fuel clock : forall t1 p, (tick_wait fuel clock t1 p).1 = [].
Proof.
  induction fuel as [|fuel IH]; intros t1 p; [reflexivity|].
  simpl. destruct (_ <? _)%float; [apply IH|reflexivity].
Qed.

Lemma silent_bind {A B} (m : M A) (f : A -> M B) :
  m.1 = [] -> (forall x, (f x).1 = []) -> (bind m f).1 = [].
Proof.
  destruct m as [tr [x| |]]; simpl; intros -> Hf; try reflexivity.
  specialize (Hf x). destruct (f x). simpl in *. exact Hf.
Qed.

Lemma silent_for_loop {S} cond (body : Z -> S -> M S) fuel :
  (forall x s, (body x s).1 = []) ->
  forall x s, (for_loop fuel cond body x s).1 = [].
Proof.
  intros Hb. induction fuel as [|fuel IH]; intros x s; simpl;
    destruct (cond x); try reflexivity.
  apply silent_bind; [apply Hb|intros; apply IH].
Qed.

Lemma silent_samples fuel clock n x s :
  (for_loop n (fun i => i <? M_samples) (sample_body fuel clock) x s).1 = [].
Proof.
  apply silent_for_loop. intros x0 s0. unfold sample_body.
  apply silent_bind; [apply silent_tick_wait|reflexivity].
Qed.

Lemma silent_checktick fuel clock : (checktick fuel clock).1 = [].
Proof.
  unfold checktick. apply silent_bind.
  - apply silent_for_loop. intros x s. unfold sample_body.
    apply silent_bind; [apply silent_tick_wait|reflexivity].
  - intros s. apply silent_for_loop. intros x d. unfold delta_body.
    apply silent_bind; [apply silent_int_of_double|reflexivity].
Qed.

(** Where the clock stands still *)
Lemma sub_self_lt_micro x :
  finite x -> (x - x <? micro)%float = true.
Proof.
  unfold finite. intros Hfin. rewrite ltb_spec, sub_spec.
  destruct (Prim2SF x) as [s| | |s m e]; try contradiction.
  - destruct s; reflexivity.
  - unfold SF64sub, SFsub. rewrite Z.sub_diag. reflexivity.
Qed.

Lemma tick_wait_stuck fuel clock c :
  (forall p, clock p = c) ->
  finite (mysecond c) ->
  forall p, tick_wait fuel clock (mysecond c) p = ([], Blocked).
Proof.
  intros Hc Hfin. induction fuel as [|fuel IH]; intros p; [reflexivity|].
  simpl. rewrite Hc, sub_self_lt_micro by exact Hfin. apply IH.
Qed.

(** X14. The result of [checktick]. Whenever [checktick] returns, it
    has written nothing, its result lies between 0 and 1000000, and it
    is at most every difference between consecutive samples, taken in
    whole microseconds with the negative ones counted as 0. *)
Theorem checktick_range fuel clock tr r :
  checktick fuel clock = (tr, Ok r) ->
  tr = [] /\ 0 <= r <= 1000000 /\
  exists timesfound p,
    for_loop 20 (fun i => i <? M_samples) (sample_body fuel clock) 0 ([], 0%nat) =
      ([], Ok (timesfound, p)) /\
    forall i d, 1 <= i < M_samples -> Delta timesfound i = ([], Ok d) -> r <= Z.max d 0.
Proof.
  intros Hrun. split.
  { pose proof (silent_checktick fuel clock) as Hs. rewrite Hrun in Hs. exact Hs. }
  unfold checktick in Hrun.
  apply bind_inv_ok in Hrun as (tr1 & [timesfound p] & tr2 & Hfirst & Hloop & _).
  cbn [fst] in Hloop.
  destruct (for_loop_partial
    (fun x d => 0 <= d <= 1000000 /\ 1 <= x /\
       forall i di, 1 <= i < x -> Delta timesfound i = ([], Ok di) -> d <= Z.max di 0)
    (fun i => i <? M_samples) (delta_body timesfound) 20) with (x := 1) (s := 1000000)
    (tr := tr2) (s' := r) as (x' & (Hr & _ & Hmin) & Hcond).
  - intros x d tr0 d' _ Hb (Hd & Hx & Hmin). unfold delta_body in Hb.
    apply bind_inv_ok in Hb as (tr3 & dl & tr4 & HD & Hret & _).
    injection Hret as _ <-.
    destruct (MIN_MAX_int_le d dl) as [Hle1 Hle2].
    split; [apply MIN_MAX_int_range; exact Hd|]. split; [lia|].
    intros i di Hi HDi. destruct (Z.eq_dec i x) as [->|Hne].
    + rewrite HD in HDi. injection HDi as _ <-. exact Hle2.
    + specialize (Hmin i di ltac:(lia) HDi). lia.
  - split; [lia|]. split; [lia|]. intros; lia.
  - exact Hloop.
  - split; [exact Hr|]. exists timesfound, p. split.
    + assert (tr1 = []) as ->; [|exact Hfirst].
      rewrite <- (silent_samples fuel clock 20 0 ([], 0%nat)), Hfirst. reflexivity.
    + intros i d Hi HD. apply Z.ltb_ge in Hcond. apply (Hmin i d); [lia|exact HD].
Qed.

(** On a clock that advances by 3 microseconds per call, the samples are
    6 microseconds apart and the result is 5. *)
Lemma checktick_range_witness :
  checktick 5 clock_example = ([], Ok 5) /\ 0 <= 5 <= 1000000.
Proof.
  assert (checktick 5 clock_example = ([], Ok 5)) as H by (vm_compute; reflexivity).
  split; [exact H|]. exact (proj1 (proj2 (checktick_range 5 clock_example [] 5 H))).
Defined.

(** X15. [checktick] on a clock that stands still. If every call of
    [gettimeofday] gives the same finite time, the wait for the first
    sample never ends, whatever the number of readings allowed. *)
Theorem checktick_spins fuel clock c :
  (forall p, clock p = c) ->
  finite (mysecond c) ->
  checktick fuel clock = ([], Blocked).
Proof.
  intros Hc Hfin. unfold checktick.
  change 20%nat with (Datatypes.S 19). rewrite for_loop_unfold.
  change (0 <? M_samples) with true. cbv iota.
  unfold sample_body at 1. cbn [fst snd]. rewrite Hc.
  rewrite (tick_wait_stuck fuel clock c Hc Hfin). reflexivity.
Qed.

(** A clock that always gives 1700000000 seconds. *)
Lemma checktick_spins_witness : checktick 1000 (fun _ => (1700000000, 0)) = ([], Blocked).
Proof.
  apply (checktick_spins 1000 (fun _ => (1700000000, 0)) (1700000000, 0)).
  - reflexivity.
  - vm_compute. exact I.
Defined.

(** ** The build with [MP] *)

Lemma serial_copy_upto a b (n : nat) j :
  fold_left (fun m j => store m j (a j)) (seqZ 0 (Z.of_nat n)) b j =
  if (0 <=? j) && (j <? Z.of_nat n) then a j else b j.
Proof.
  induction n as [|n IH].
  - change (Z.of_nat 0) with 0. rewrite seqZ_nil by lia. cbn [fold_left].
    destruct (0 <=? j) eqn:E1; destruct (j <? 0) eqn:E2; try reflexivity.
    apply Z.leb_le in E1. apply Z.ltb_lt in E2. lia.
  - rewrite Nat2Z.inj_succ, <- Z.add_1_r, seqZ_snoc, fold_left_app by lia.
    simpl. unfold store at 1. rewrite IH.
    destruct (j =? Z.of_nat n) eqn:E.
    + apply Z.eqb_eq in E. subst j.
      replace ((0 <=? Z.of_nat n) && (Z.of_nat n <? Z.of_nat n + 1)) with true; [reflexivity|].
      symmetry. apply andb_true_iff. rewrite Z.leb_le, Z.ltb_lt. lia.
    + apply Z.eqb_neq in E.
      destruct (0 <=? j) eqn:E1; [|reflexivity]. simpl.
      destruct (j <? Z.of_nat n) eqn:E2; destruct (j <? Z.of_nat n + 1) eqn:E3;
        try reflexivity;
        rewrite ?Z.ltb_lt, ?Z.ltb_ge in *; lia.
Qed.

Lemma serial_copy_all A a b j :
  serial_copy A a b j = if (0 <=? j) && (j <? A) then a j else b j.
Proof.
  unfold serial_copy. destruct (Z.le_gt_cases 0 A) as [HA|HA].
  - rewrite <- (Z2Nat.id A) at 1 by exact HA. rewrite serial_copy_upto.
    rewrite Z2Nat.id by exact HA. reflexivity.
  - rewrite seqZ_nil by lia. simpl.
    destruct (0 <=? j) eqn:E1; destruct (j <? A) eqn:E2; try reflexivity.
    apply Z.leb_le in E1. apply Z.ltb_lt in E2. lia.
Qed.

Lemma trial_MP_returns A env k m :
  a_ok m = true -> b_ok m = true ->
  exists m', trial_MP A env k m = ([], Ok (m', elapsed env k 0)) /\
    a_ok m' = true /\ b_ok m' = true /\ arr_a m' = arr_a m /\
    forall j, arr_b m' j = if (0 <=? j) && (j <? A) then arr_a m j else arr_b m j.
Proof.
  intros Ha Hb. unfold trial_MP. rewrite Ha, Hb. simpl.
  destruct (0 <? A) eqn:E; eexists; (split; [reflexivity|]); repeat split; auto.
  - intros j. apply serial_copy_all.
  - intros j. apply Z.ltb_ge in E.
    destruct (0 <=? j) eqn:E1; destruct (j <? A) eqn:E2; try reflexivity.
    apply Z.leb_le in E1. apply Z.ltb_lt in E2. lia.
Qed.

Lemma run_trials_MP_returns A n env m :
  a_ok m = true -> b_ok m = true ->
  exists m', run_trials_MP A n env m =
      ([], Ok (m', (fun k => elapsed env k 0) <$> seqZ 0 (NTIMES n))) /\
    arr_a m' = arr_a m /\
    forall j, arr_b m' j = if (0 <=? j) && (j <? A) then arr_a m j else arr_b m j.
Proof.
  intros Ha Hb. unfold run_trials_MP. pose proof (NTIMES_ge_2 n) as HN.
  assert (forall fuel k mk ts,
    Z.of_nat fuel = NTIMES n - k -> 0 <= k ->
    a_ok mk = true -> b_ok mk = true ->
    exists m', for_loop fuel (fun k => k <? NTIMES n) (trials_body_MP A env) k (mk, ts) =
        ([], Ok (m', ts ++ ((fun k => elapsed env k 0) <$> seqZ k (NTIMES n - k)))) /\
      arr_a m' = arr_a mk /\
      forall j, arr_b m' j =
        if (k <? NTIMES n) && ((0 <=? j) && (j <? A)) then arr_a mk j else arr_b mk j) as Hloop.
  { induction fuel as [|fuel IH]; intros k mk ts Hf Hk Hak Hbk.
    - simpl. replace (k <? NTIMES n) with false by (symmetry; apply Z.ltb_ge; lia).
      exists mk. replace (NTIMES n - k) with 0 by lia. simpl. rewrite app_nil_r.
      repeat split; auto.
    - rewrite for_loop_unfold.
      replace (k <? NTIMES n) with true by (symmetry; apply Z.ltb_lt; lia).
      unfold trials_body_MP at 1. cbn [fst snd].
      destruct (trial_MP_returns A env k mk Hak Hbk) as (m1 & -> & Ha1 & Hb1 & Harr1 & Hm1).
      cbn [bind ret fst snd app].
      destruct (IH (k + 1) m1 (ts ++ [elapsed env k 0]) ltac:(lia) ltac:(lia) Ha1 Hb1)
        as (m' & -> & Harr & Hm).
      exists m'. split.
      + rewrite (seqZ_cons k (NTIMES n - k)) by lia. simpl.
        rewrite <- app_assoc. simpl.
        replace (Z.succ k) with (k + 1) by lia.
        replace (Z.pred (NTIMES n - k)) with (NTIMES n - (k + 1)) by lia. reflexivity.
      + split; [congruence|]. intros j. rewrite Hm, Hm1, Harr1. simpl.
        destruct ((0 <=? j) && (j <? A)); [|rewrite andb_false_r; reflexivity].
        destruct (k + 1 <? NTIMES n); reflexivity. }
  destruct (Hloop (Z.to_nat (NTIMES n)) 0 m [] ltac:(lia) ltac:(lia) Ha Hb)
    as (m' & Hrun & Harr & Hm).
  exists m'. rewrite Z.sub_0_r in Hrun. split; [exact Hrun|]. split; [exact Harr|].
  intros j. rewrite Hm.
  replace (0 <? NTIMES n) with true by (symmetry; apply Z.ltb_lt; lia). reflexivity.
Qed.



(** X17. [main] of the build with [MP]. With [a] and [b] allocated
    the run completes for every thread count, also a negative one or one
    above 288: the count is printed and not used otherwise. The
    bandwidth printed is that of the minimum over the trial times after
    the first. *)
Theorem main_MP_returns A n env :
  memalign_ok env ArrA = true -> memalign_ok env ArrB = true ->
  (main_MP A n env).2 = Ok 0 /\
  stdout (main_MP A n env).1 =
    [(thread_count env,
      bandwidth A (summary n ((fun k => elapsed env k 0) <$> seqZ 0 (NTIMES n))))].
Proof.
  intros Ha Hb. unfold main_MP, posix_memalign, emit. cbn [bind ret fst snd app].
  rewrite Ha, Hb.
  destruct (init_arrays_ok A {| a_ok := true; b_ok := true; c_ok := memalign_ok env ArrC;
                                arr_a := heap_a env; arr_b := heap_b env |} eq_refl eq_refl)
    as (m & Hinit & Ha' & Hb' & _).
  destruct (run_trials_MP_returns A n env m Ha' Hb') as (m' & Hrun & _).
  unfold main_after_alloc_MP. rewrite Hinit. cbn [bind]. rewrite Hrun.
  cbn [bind emit ret fst snd app]. split; reflexivity.
Qed.

(** A thread count of 1000. *)
Lemma main_MP_returns_witness :
  thread_count (env_ok 1000) = 1000 /\
  (main_MP 64 None (env_ok 1000)).2 = Ok 0 /\
  stdout (main_MP 64 None (env_ok 1000)).1 =
    [(1000,
      bandwidth 64 (summary None ((fun k => elapsed (env_ok 1000) k 0) <$> seqZ 0 (NTIMES None))))].
Proof.
  split; [reflexivity|].
  apply (main_MP_returns 64 None (env_ok 1000)); reflexivity.
Defined.
